(** * Caterpillar: the conversion pipeline of [caterpillar.py]

    A shallow embedding of the Chrome-App-to-web-app converter and the
    properties of its conversion pipeline: script annotation, script-tag
    injection, web-manifest generation, dependency installation, the
    service-worker (caching script) generation and the status
    classification of [convert_app]. *)

From Stdlib Require Import Ascii.
From stdpp Require Import base option list sorting strings pretty gmap.

Set Warnings "-register-all,-clear-no-such-hyp".



(** ** Python values used throughout *)

(** Exceptions the pipeline raises or lets through. *)
Inductive exn : Type :=
  | OSError (msg : string)
  | IOError (msg : string)
  | ValueError (msg : string)
  | KeyError (key : string)
  | TypeError
  | IndexError
  | AttributeError
  | InstallationError (msg : string).

(** A call either returns a value or raises. *)
Inductive result (A : Type) : Type :=
  | Ok (a : A)
  | Raise (e : exn).
Arguments Ok {A} a.
Arguments Raise {A} e.

Global Instance result_ret : MRet result := @Ok.
Global Instance result_bind : MBind result := fun A B f m =>
  match m with
  | Ok a => f a
  | Raise e => Raise e
  end.
Global Instance result_fmap : FMap result := fun A B f m =>
  match m with
  | Ok a => Ok (f a)
  | Raise e => Raise e
  end.

Definition LF : ascii := "010"%char.
Definition CR : ascii := "013"%char.
Definition newline_lf : string := String LF EmptyString.
Definition newline_crlf : string := String CR (String LF EmptyString).

(** [s.endswith(suffix)]. *)
Fixpoint endswith (s suffix : string) : bool :=
  if String.eqb s suffix then true
  else match s with
       | EmptyString => false
       | String _ s' => endswith s' suffix
       end.

(** [''.join(ls)]. *)
Definition join_lines (ls : list string) : string :=
  String.concat EmptyString ls.

(** Iterating over an open file: the content is cut after every line feed,
    each line keeps its terminator, a last line without one is kept too. *)
Fixpoint readlines (s : string) : list string :=
  match s with
  | EmptyString => []
  | String c rest =>
      if Ascii.eqb c LF then String c EmptyString :: readlines rest
      else match readlines rest with
           | [] => [String c EmptyString]
           | line :: ls => String c line :: ls
           end
  end.

(** A string that ends with a line feed. *)
Definition terminated (s : string) : Prop :=
  exists s', s = s' +:+ newline_lf.

(** What [readlines] yields: lines with no line feed before their end, all
    of them but possibly the last terminated. *)
Inductive one_line : string -> Prop :=
  | one_line_lf : one_line newline_lf
  | one_line_last c : Ascii.eqb c LF = false -> one_line (String c EmptyString)
  | one_line_cons c l : Ascii.eqb c LF = false -> one_line l -> one_line (String c l).

Inductive file_lines : list string -> Prop :=
  | file_lines_nil : file_lines []
  | file_lines_last l : one_line l -> file_lines [l]
  | file_lines_cons l ls :
      one_line l -> terminated l -> file_lines ls -> file_lines (l :: ls).

(** ** Script annotation: [insert_todos_into_file] *)

Section ScriptAnnotation.

(** [chrome_app.apis.api_member_used]: the lexical matcher, which returns
    the API member a line uses, if any.  The file is processed as the
    byte string it holds: [surrogateescape.decode] and
    [surrogateescape.encode] are a lossless codec pair that leaves ASCII
    alone. *)
Variable api_member_used : string -> option string.

Definition todo_comment (api_call newline : string) : string :=
  "// TODO(Caterpillar): Check usage of " +:+ api_call +:+ "." +:+ newline.

(** The loop body over the lines of the input file: [out_js_lines]. *)
Fixpoint out_js_lines (lines : list string) : list string :=
  match lines with
  | [] => []
  | line :: rest =>
      match api_member_used line with
      | Some api_call =>
          let newline :=
            if endswith line newline_crlf then newline_crlf else newline_lf in
          todo_comment api_call newline :: line :: out_js_lines rest
      | None => line :: out_js_lines rest
      end
  end.

(** The new content written back to [js_path]. *)
Definition insert_todos (content : string) : string :=
  join_lines (out_js_lines (readlines content)).

(** A line of the file flagged by the matcher. *)
Definition flagged (line : string) : Prop :=
  is_Some (api_member_used line).

End ScriptAnnotation.


(** ** JSON values and paths *)

(** What [json.loads] returns; a JSON object is a Python dictionary, with
    unique keys and an iteration order of its own. *)
Inductive json : Type :=
  | JNull
  | JBool (b : bool)
  | JInt (n : Z)
  | JFloat (repr : string)
  | JStr (s : string)
  | JList (l : list json)
  | JDict (d : gmap string json).

(** [d[key]]. *)
Definition dict_getitem {V : Type} (d : gmap string V) (key : string) : result V :=
  match d !! key with
  | Some v => Ok v
  | None => Raise (KeyError key)
  end.

(** [d.get(key, default)]. *)
Definition dict_get {V : Type} (d : gmap string V) (key : string) (default : V) : V :=
  match d !! key with
  | Some v => v
  | None => default
  end.

(** [l[i]] for a list, with Python's negative indices. *)
Definition list_getitem (l : list json) (i : Z) : result json :=
  let n := Z.of_nat (length l) in
  let j := if (i <? 0)%Z then (i + n)%Z else i in
  if bool_decide (0 ≤ j < n)%Z then
    match l !! Z.to_nat j with
    | Some v => Ok v
    | None => Raise IndexError
    end
  else Raise IndexError.

(** [sep.join(parts)]. *)
Definition str_join (sep : string) (parts : list string) : string :=
  String.concat sep parts.

(** [os.path.join(a, b)] (POSIX). *)
Definition path_join (a b : string) : string :=
  if String.prefix "/" b then b
  else if bool_decide (a = EmptyString) || endswith a "/" then a +:+ b
  else a +:+ "/" +:+ b.

(** [os.path.join(a, *p)]. *)
Definition path_joins (a : string) (p : list string) : string :=
  foldl path_join a p.

(** [os.path.basename(path)]. *)
Fixpoint basename (path : string) : string :=
  match path with
  | EmptyString => EmptyString
  | String c rest =>
      if existsb (Ascii.eqb "/"%char) (String.list_ascii_of_string rest) then basename rest
      else if Ascii.eqb c "/"%char then rest
      else path
  end.

(** Number of directories between a file and the root of its tree. *)
Fixpoint depth (path : string) : nat :=
  match path with
  | EmptyString => 0
  | String c rest => (if Ascii.eqb c "/"%char then 1 else 0) + depth rest
  end.

(** [os.path.relpath(output_dir, dirpath)] for the directory of the file
    at [path]: the way back up to the root of the tree. *)
Definition root_path_of (path : string) : string :=
  match depth path with
  | 0 => "."
  | S n => str_join "/" (replicate (S n) "..")
  end.

(** ** File trees *)

(** A directory tree: the regular files below a directory, keyed by their
    path relative to it (as [os.path.relpath] prints it), with their
    content.  Directories are implicit: a directory is there when a file
    lies below it, and [os.mkdir] changes no file. *)
Abbreviation tree := (gmap string string).

(** [os.walk] followed by the [relpath] of every file name: all files of
    the tree, in the order of the walk. *)
Definition walk (t : tree) : list string := (map_to_list t).*1.

(** [os.remove(os.path.join(root, path))]. *)
Definition os_remove (path : string) (t : tree) : result tree :=
  match t !! path with
  | Some _ => Ok (delete path t)
  | None => Raise (OSError EmptyString)
  end.

(** [shutil.copyfile(source, destination)], from a file of the tree [src]
    to a path of the tree [t]. *)
Definition copyfile (src : tree) (source destination : string) (t : tree)
  : result tree :=
  match src !! source with
  | Some content => Ok (<[destination := content]> t)
  | None => Raise (IOError source)
  end.

(** Writing [content] to a file opened with mode ['w']. *)
Definition write_file (path content : string) (t : tree) : tree :=
  <[path := content]> t.

(** ** Markup documents: the [bs4] document tree *)

(** An element of the parsed document: a tag with its attributes and
    contents, or a piece of text. *)
Inductive node : Type :=
  | Tag (name : string) (attrs : list (string * json)) (contents : list node)
  | NavigableString (text : string).

(** The [BeautifulSoup] object: the top-level contents of the document. *)
Abbreviation soup := (list node).

Definition tag_named (name : string) (n : node) : bool :=
  match n with
  | Tag nm _ _ => String.eqb nm name
  | NavigableString _ => false
  end.

(** [tag.find_all(...)] below and including [n], in document order. *)
Fixpoint find_all_in (p : node -> bool) (n : node) : list node :=
  match n with
  | Tag _ _ contents =>
      (if p n then [n] else []) ++ flat_map (find_all_in p) contents
  | NavigableString _ => []
  end.

(** [soup(...)]: every matching element of the document, in document
    order. *)
Definition find_all (p : node -> bool) (doc : soup) : list node :=
  flat_map (find_all_in p) doc.

(** A reference to an element is the path that leads to it: the index of
    a top-level element, then indices into the contents of each tag on
    the way down. *)
Abbreviation ref := (list nat).

(** The first match below and including [n], relative to [n]. *)
Fixpoint find_in (p : node -> bool) (n : node) : option ref :=
  if p n then Some []
  else match n with
       | Tag _ _ contents =>
           (fix go (ns : list node) (i : nat) : option ref :=
              match ns with
              | [] => None
              | c :: cs =>
                  match find_in p c with
                  | Some q => Some (i :: q)
                  | None => go cs (S i)
                  end
              end) contents 0
       | NavigableString _ => None
       end.

Fixpoint find_from (p : node -> bool) (ns : list node) (i : nat) : option ref :=
  match ns with
  | [] => None
  | c :: cs =>
      match find_in p c with
      | Some q => Some (i :: q)
      | None => find_from p cs (S i)
      end
  end.

(** [soup.find(...)]: a reference to the first match in document order,
    if there is one. *)
Definition find (p : node -> bool) (doc : soup) : option ref :=
  find_from p doc 0.

(** Where a search finds its first match: [first_at p r doc] when [r]
    refers to the first element of [doc], in document order, that [p]
    accepts. *)
Inductive first_at (p : node -> bool) : ref -> list node -> Prop :=
  | first_here n ns : p n = true -> first_at p [0] (n :: ns)
  | first_inside name attrs contents ns q :
      p (Tag name attrs contents) = false ->
      first_at p q contents ->
      first_at p (0 :: q) (Tag name attrs contents :: ns)
  | first_later n ns j q :
      find_in p n = None ->
      first_at p (j :: q) ns ->
      first_at p (S j :: q) (n :: ns).

(** The contents of the element [r] refers to ([[]] is the document). *)
Fixpoint contents_at (r : ref) (doc : list node) : list node :=
  match r with
  | [] => doc
  | i :: r' =>
      match doc !! i with
      | Some (Tag _ _ contents) => contents_at r' contents
      | _ => []
      end
  end.

(** Puts [new] at the place [r] refers to; what was there, and what
    follows it, moves one place on. *)
Fixpoint insert_at (r : ref) (new : node) (doc : list node) : list node :=
  match r with
  | [] => doc
  | [i] => take i doc ++ new :: drop i doc
  | i :: r' =>
      match doc !! i with
      | Some (Tag name attrs contents) =>
          <[i := Tag name attrs (insert_at r' new contents)]> doc
      | _ => doc
      end
  end.

(** [tag.append(new)], for the tag [r] refers to; the result comes with
    the reference to the new element. *)
Definition append_to (r : ref) (new : node) (doc : soup) : soup * ref :=
  let r_new := r ++ [length (contents_at r doc)] in
  (insert_at r_new new doc, r_new).

(** [tag.insert(0, new)], for the tag [r] refers to. *)
Definition insert_first (r : ref) (new : node) (doc : soup) : soup * ref :=
  (insert_at (r ++ [0]) new doc, r ++ [0]).

(** [soup.new_tag('script', src=path)]. *)
Definition new_script_tag (path : string) : node :=
  Tag "script" [("src", JStr path)] [].

(** *** [inject_script_tags] *)

(** One turn of the loop over [reversed(required_js_paths)]: the state is
    the document and [first_script]. *)
Definition inject_script_tag (root_path boilerplate_dir : string)
    (state : soup * option ref) (script_path : string)
  : result (soup * option ref) :=
  let '(doc, first_script) := state in
  let path := path_join (path_join root_path boilerplate_dir) script_path in
  let script := new_script_tag path in
  match first_script with
  | None =>
      match find (tag_named "body") doc with
      | Some body =>
          let '(doc', r) := append_to body script doc in Ok (doc', Some r)
      | None => Raise AttributeError
      end
  | Some r =>
      (* [insert_before] puts the new tag where [first_script] was. *)
      Ok (insert_at r script doc, Some r)
  end.

Fixpoint inject_script_loop (root_path boilerplate_dir : string)
    (state : soup * option ref) (paths : list string)
  : result (soup * option ref) :=
  match paths with
  | [] => Ok state
  | script_path :: rest =>
      state' ← inject_script_tag root_path boilerplate_dir state script_path;
      inject_script_loop root_path boilerplate_dir state' rest
  end.

Definition inject_script_tags (doc : soup) (required_js_paths : list string)
    (root_path boilerplate_dir : string) : result soup :=
  match required_js_paths with
  | [] => Ok doc
  | _ =>
      let first_script := find (tag_named "script") doc in
      fst <$> inject_script_loop root_path boilerplate_dir
                (doc, first_script) (reverse required_js_paths)
  end.

(** The script element injected for a required path. *)
Definition injected (root_path boilerplate_dir script_path : string) : node :=
  new_script_tag (path_join (path_join root_path boilerplate_dir) script_path).

(** The script elements of a document, in document order. *)
Definition script_elements (doc : soup) : list node :=
  find_all (tag_named "script") doc.

(** *** [inject_misc_tags] *)

Definition WEB_MANIFEST_FILENAME : string := "manifest.webmanifest".

Definition has_attr (key : string) (n : node) : bool :=
  match n with
  | Tag _ attrs _ => bool_decide (key ∈ attrs.*1)
  | NavigableString _ => false
  end.

Definition attr_is (key value : string) (n : node) : bool :=
  match n with
  | Tag _ attrs _ =>
      existsb (fun '(k, v) =>
                 String.eqb k key &&
                 match v with JStr s => String.eqb s value | _ => false end)
              attrs
  | NavigableString _ => false
  end.

Definition inject_misc_tags (doc : soup) (chrome_app_manifest : gmap string json)
    (root_path : string) : soup :=
  let '(doc, head) :=
    match find (tag_named "head") doc with
    | Some head => (doc, head)
    | None =>
        match find (tag_named "html") doc with
        | Some html => insert_first html (Tag "head" [] []) doc
        | None => insert_first [] (Tag "head" [] []) doc
        end
    end in
  let manifest_path := path_join root_path WEB_MANIFEST_FILENAME in
  let manifest_link :=
    Tag "link" [("rel", JStr "manifest"); ("href", JStr manifest_path)] [] in
  let doc := (append_to head manifest_link doc).1 in
  let doc :=
    foldl (fun doc tag =>
             match chrome_app_manifest !! tag with
             | Some content =>
                 match find_all (fun n => tag_named "meta" n && attr_is "name" tag n) doc with
                 | [] => (append_to head
                            (Tag "meta" [("content", content); ("name", JStr tag)] [])
                            doc).1
                 | _ => doc
                 end
             | None => doc
             end)
          doc ["description"; "author"; "name"] in
  match find_all (fun n => tag_named "meta" n && has_attr "charset" n) doc with
  | [] => (insert_first head (Tag "meta" [("charset", JStr "utf-8")] []) doc).1
  | _ => doc
  end.

(** ** Web manifest: [generate_web_manifest] *)

(** One entry of [web_manifest['icons']]. *)
Definition icon_entry (src : json) (icon_size : string) : json :=
  JDict {[ "src" := src; "sizes" := JStr (icon_size +:+ "x" +:+ icon_size) ]}.

(** The loop [for icon_size in icons: ... icons[icon_size] ...] over the
    value of the [icons] member.  A dictionary yields its keys; a list
    yields its elements, which then have to be indices into it; a string
    yields its characters, which are no indices; anything else cannot be
    iterated. *)
Definition icon_entries (icons : json) : result (list json) :=
  match icons with
  | JDict d =>
      mapM (fun icon_size =>
              src ← dict_getitem d icon_size; Ok (icon_entry src icon_size))
           (map_to_list d).*1
  | JList l =>
      mapM (fun icon_size =>
              match icon_size with
              | JInt i => src ← list_getitem l i; Ok (icon_entry src (pretty i))
              | JBool true => src ← list_getitem l 1; Ok (icon_entry src "True")
              | JBool false => src ← list_getitem l 0; Ok (icon_entry src "False")
              | _ => Raise TypeError
              end) l
  | JStr EmptyString => Ok []
  | _ => Raise TypeError
  end.

Definition generate_web_manifest (manifest : gmap string json) (start_url : string)
  : result (gmap string json) :=
  name ← dict_getitem manifest "name";
  let web_manifest : gmap string json := ∅ in
  let web_manifest := <["name" := name]> web_manifest in
  let web_manifest :=
    <["short_name" := dict_get manifest "short_name" name]> web_manifest in
  let web_manifest :=
    <["lang" := dict_get manifest "default_locale" (JStr "en")]> web_manifest in
  let web_manifest := <["splash_screens" := JList []]> web_manifest in
  let web_manifest := <["display" := JStr "minimal-ui"]> web_manifest in
  let web_manifest := <["orientation" := JStr "any"]> web_manifest in
  let web_manifest := <["start_url" := JStr start_url]> web_manifest in
  let web_manifest := <["theme_color" := JStr "white"]> web_manifest in
  let web_manifest := <["background_color" := JStr "white"]> web_manifest in
  let web_manifest := <["related_applications" := JList []]> web_manifest in
  let web_manifest := <["prefer_related_applications" := JBool false]> web_manifest in
  icons ← match manifest !! "icons" with
          | Some icons => icon_entries icons
          | None => Ok []
          end;
  Ok (<["icons" := JList icons]> web_manifest).

(** The members of the result of [generate_web_manifest]. *)
Definition web_manifest_fields : gset string :=
  {[ "name"; "short_name"; "lang"; "display"; "orientation"; "start_url";
     "theme_color"; "background_color"; "related_applications";
     "prefer_related_applications"; "icons"; "splash_screens" ]}.

(** The members of the source manifest that [generate_web_manifest]
    reads. *)
Definition mapped_fields : list string :=
  ["name"; "short_name"; "default_locale"; "icons"].

(** The shape of a source manifest: its [icons] member, when present, is
    an object that maps icon sizes to paths. *)
Definition icons_of (manifest : gmap string json) : option (gmap string json) :=
  match manifest !! "icons" with
  | Some (JDict d) => Some d
  | Some _ => None
  | None => Some ∅
  end.

(** ** The caching script: [generate_service_worker] *)

Definition REGISTER_SCRIPT_NAME : string := "register_sw.js".
Definition SW_SCRIPT_NAME : string := "sw.js".
Definition SW_STATIC_SCRIPT_NAME : string := "sw_static.js".
Definition MAX_CACHE_VERSION : Z := 1000000.
Definition INFO_SCRIPT_NAME : string := "app.info.js".

(** [SW_FORMAT_STRING.format(cache_version=..., joined_filepaths=...,
    boilerplate_dir=...)]. *)
Definition SW_FORMAT_STRING (cache_version : Z) (joined_filepaths boilerplate_dir : string)
  : string :=
  "/**
 * Service worker generated by Caterpillar.
 */

/**
 * Current cache version.
 *
 * Increment this to force cache to clear.
 */
var CACHE_VERSION = " +:+ pretty cache_version +:+ ";

/**
 * Object mapping a cache identifier to the actual, versioned cache name.
 */
var CACHES = {
  'app': 'app-cache-v' + CACHE_VERSION
};

/**
 * An array of filenames of cached files.
 */
var CACHED_FILES = [
  " +:+ joined_filepaths +:+ "
];

importScripts('" +:+ boilerplate_dir +:+ "/caterpillar.js');
importScripts('" +:+ boilerplate_dir +:+ "/sw_static.js');

// TODO(Caterpillar): Edit background scripts to remove chrome.app.runtime
// dependence.
".

(** The paths of the files the service worker will cache: every file of
    the tree, sorted. *)
Definition all_filepaths (output_dir : tree) : list string :=
  merge_sort String.le (walk output_dir).

(** [chrome_app_manifest['app']['background'].get('scripts', [])].  The
    entries of the list are file names; an entry that is no string is
    outside the model and raises here. *)
Definition background_scripts (chrome_app_manifest : gmap string json)
  : result (list string) :=
  app ← dict_getitem chrome_app_manifest "app";
  match app with
  | JDict app =>
      background ← dict_getitem app "background";
      match background with
      | JDict background =>
          match dict_get background "scripts" (JList []) with
          | JList scripts =>
              mapM (fun script =>
                      match script with
                      | JStr s => Ok s
                      | _ => Raise TypeError
                      end) scripts
          | _ => Raise TypeError
          end
      | _ => Raise AttributeError
      end
  | _ => Raise TypeError
  end.

Definition import_statement (script : string) : string :=
  "importScripts('" +:+ script +:+ "');" +:+ newline_lf.

Definition generate_service_worker (cache_version : Z) (output_dir : tree)
    (chrome_app_manifest : gmap string json) (required_js_paths : list string)
    (boilerplate_dir : string) : result string :=
  let all_filepaths := all_filepaths output_dir in
  let all_filepaths := (fun fp => "'" +:+ fp +:+ "'") <$> all_filepaths in
  let sw_js :=
    SW_FORMAT_STRING cache_version
      (str_join ("," +:+ newline_lf +:+ "  ") all_filepaths) boilerplate_dir in
  let required_js_paths := path_join boilerplate_dir <$> required_js_paths in
  background_scripts ← background_scripts chrome_app_manifest;
  Ok (sw_js +:+
      join_lines (import_statement <$> (required_js_paths ++ background_scripts))).

(** ** Polyfills and dependencies *)

(** Chrome APIs with polyfills available. *)
Definition POLYFILLS : list string :=
  ["notifications"; "power"; "runtime"; "storage"; "tts"].

(** Maps dependency managers to the folder they install dependencies
    into. *)
Definition DEPENDENCY_MANAGER_INSTALL_FOLDER : gmap string string :=
  {[ "bower" := "bower_components"; "npm" := "node_modules" ]}.

Record dependency : Type := {
  dep_name : string;
  dep_path : string;
  dep_manager : string;
}.

(** A polyfill manifest: the members the pipeline reads. *)
Record polyfill_manifest : Type := {
  pm_status : string;
  pm_dependencies : list dependency;
}.

Definition polyfill_filename (api : string) : string :=
  api +:+ ".polyfill.js".

Definition polyfill_paths (apis : list string) : list string :=
  (fun api => path_join "polyfills" (polyfill_filename api)) <$> apis.

(** What the process started by [subprocess.Popen(call, cwd=output_dir)]
    leaves behind: the tree, its output and its exit code. *)
Record completed_process : Type := {
  cp_tree : tree;
  cp_stdout : string;
  cp_stderr : string;
  cp_returncode : Z;
}.

(** ** The world of a conversion *)

Inductive level : Type := INFO | WARNING | ERROR.

(** The input and output directories (absent when they do not exist),
    two directories of which neither lies in the other, and the records
    logged so far, oldest first; [logging.debug] records are left out. *)
Record world : Type := {
  input_dir : option tree;
  output_dir : option tree;
  log : list (level * string);
}.

(** A computation that reads and writes the world and returns or
    raises. *)
Definition M (A : Type) : Type := world -> world * result A.

Global Instance M_ret : MRet M := fun A a w => (w, Ok a).
Global Instance M_bind : MBind M := fun A B f m w =>
  match m w with
  | (w', Ok a) => f a w'
  | (w', Raise e) => (w', Raise e)
  end.

Definition raise {A : Type} (e : exn) : M A := fun w => (w, Raise e).

(** A call that does not touch the world. *)
Definition lift {A : Type} (r : result A) : M A := fun w => (w, r).

(** [try: body except <handled>: handler]. *)
Definition try_except {A : Type} (body : M A) (handled : exn -> bool)
    (handler : exn -> M A) : M A := fun w =>
  match body w with
  | (w', Ok a) => (w', Ok a)
  | (w', Raise e) => if handled e then handler e w' else (w', Raise e)
  end.

Definition logging (lvl : level) (msg : string) : M unit := fun w =>
  ({| input_dir := input_dir w; output_dir := output_dir w;
      log := log w ++ [(lvl, msg)] |}, Ok ()).

Definition set_output_dir (t : option tree) : M unit := fun w =>
  ({| input_dir := input_dir w; output_dir := t; log := log w |}, Ok ()).

(** Reads the input directory. *)
Definition in_input_dir {A : Type} (op : tree -> result A) : M A := fun w =>
  match input_dir w with
  | Some t => (w, op t)
  | None => (w, Raise (OSError EmptyString))
  end.

(** Runs an operation on the files of the output directory; there is
    nothing to work on when the directory does not exist. *)
Definition in_output_dir {A : Type} (op : tree -> tree * result A) : M A := fun w =>
  match output_dir w with
  | Some t =>
      let '(t', r) := op t in
      ({| input_dir := input_dir w; output_dir := Some t'; log := log w |}, r)
  | None => (w, Raise (OSError EmptyString))
  end.

(** An operation that changes the tree only when it succeeds. *)
Definition updating (op : tree -> result tree) (t : tree) : tree * result unit :=
  match op t with
  | Ok t' => (t', Ok ())
  | Raise e => (t, Raise e)
  end.

(** An operation that writes to the tree and cannot fail. *)
Definition writing (op : tree -> tree) (t : tree) : tree * result unit :=
  (op t, Ok ()).

(** An operation that only reads the tree. *)
Definition reading {A : Type} (op : tree -> A) (t : tree) : tree * result A :=
  (t, Ok (op t)).

(** The messages [WarningStoreStreamHandler] has captured: [main] hands
    the handler's own list to [convert_app], so that it holds every warning
    logged up to the moment it is read. *)
Definition captured_warnings (w : world) : list string :=
  omap (fun '(lvl, msg) => match lvl with WARNING => Some msg | _ => None end)
       (log w).

Definition is_OSError (e : exn) : bool :=
  match e with OSError _ => true | _ => false end.
Definition is_ValueError (e : exn) : bool :=
  match e with ValueError _ => true | _ => false end.
Definition is_InstallationError (e : exn) : bool :=
  match e with InstallationError _ => true | _ => false end.

(** [e.message]. *)
Definition message (e : exn) : string :=
  match e with
  | OSError msg | IOError msg | ValueError msg | InstallationError msg => msg
  | KeyError key => key
  | TypeError | IndexError | AttributeError => EmptyString
  end.

(** ** Staging the output tree *)

Definition get_world : M world := fun w => (w, Ok w).

(** [shutil.rmtree(output_dir, ignore_errors=True)]. *)
Definition rmtree_output_dir : M unit := set_output_dir None.

(** [shutil.copytree(input_dir, output_dir)]: the input has to exist and
    the output must not. *)
Definition copytree : M unit :=
  w ← get_world;
  match input_dir w, output_dir w with
  | Some t, None => set_output_dir (Some t)
  | _, _ => raise (OSError EmptyString)
  end.

(** [setup_output_dir]; the three [os.mkdir] calls that follow the copy
    create empty directories and change no file. *)
Definition setup_output_dir (force : bool) : M unit :=
  (* Remove the output directory if it already exists. *)
  w ← get_world;
  _ ← (if force then rmtree_output_dir
       else if bool_decide (is_Some (output_dir w))
       then raise (OSError "Output directory already exists.")
       else mret ());
  (* Copy all files across from the Chrome App. *)
  copytree.

(** ** The collaborators of the pipeline *)

(** The modules and programs [caterpillar.py] calls: [chrome_app.apis],
    [chrome_app.manifest], [polyfill_manifest], [report], [bs4], [json],
    [random], the package managers started by [subprocess.Popen], and the
    scripts shipped in Caterpillar's own [js] directory. *)
Record collaborators : Type := {
  (** [chrome_app.manifest.MANIFEST_FILENAME] *)
  CHROME_APP_MANIFEST_FILENAME : string;
  (** [chrome_app.apis.app_apis(output_dir)] *)
  app_apis : tree -> list string;
  (** [chrome_app.apis.api_member_used(line)] *)
  api_member_used : string -> option string;
  (** [chrome_app.manifest.get(input_dir)] *)
  manifest_get : tree -> result (gmap string json);
  (** [chrome_app.manifest.localize(manifest, input_dir)], which updates
      the manifest *)
  manifest_localize : gmap string json -> tree -> result (gmap string json);
  (** [chrome_app.manifest.verify(manifest)] *)
  manifest_verify : gmap string json -> result unit;
  (** the registry [polyfill_manifest] loads from *)
  polyfill_registry : string -> polyfill_manifest;
  (** [report.generate_and_write(report_dir, manifest, polyfill_manifests,
      status, captured_warnings, output_dir)] *)
  report_generate_and_write :
    string -> gmap string json -> gmap string polyfill_manifest -> string ->
    list string -> tree -> tree;
  (** [bs4.BeautifulSoup(text, 'html.parser')] and [soup.prettify()] *)
  html_parser : string -> soup;
  prettify : soup -> string;
  (** [json.dumps(value, sort_keys=True, indent=indent)] *)
  json_dumps : nat -> json -> string;
  (** [random.randrange(stop)] *)
  randrange : Z -> Z;
  (** [subprocess.Popen(call, cwd=output_dir).communicate()] *)
  popen : list string -> tree -> completed_process;
  (** the files below [SCRIPT_DIR/js] *)
  caterpillar_js : tree;
}.

(** Modelled from the spec: [polyfill_manifest.load_many] is not among the
    sources.  Descriptors are loaded from a static registry keyed by API
    name, one for each of the given APIs. *)
Definition load_many (c : collaborators) (apis : list string)
  : gmap string polyfill_manifest :=
  list_to_map ((fun api => (api, polyfill_registry c api)) <$> apis).

(** Modelled from the spec: [polyfill_manifest.default] is not among the
    sources.  The default descriptor has status none and no
    dependencies. *)
Definition default_manifest (api : string) : polyfill_manifest :=
  {| pm_status := "none"; pm_dependencies := [] |}.

(** The configuration dictionary. *)
Record config : Type := {
  boilerplate_dir : string;
  report_dir : string;
  start_url : string;
}.

Section Pipeline.

Variable c : collaborators.

(** ** Removing the Chrome App manifest: [cleanup_output_dir] *)

Definition cleanup_output_dir (t : tree) : result tree :=
  os_remove (CHROME_APP_MANIFEST_FILENAME c) t.

(** ** Static code: [copy_static_code] and [copy_script] *)

Fixpoint copy_static_code (static_code_paths : list string)
    (boilerplate_dir : string) (t : tree) : tree * result unit :=
  match static_code_paths with
  | [] => (t, Ok ())
  | static_code_path :: rest =>
      match copyfile (caterpillar_js c) static_code_path
              (path_join boilerplate_dir static_code_path) t with
      | Ok t' => copy_static_code rest boilerplate_dir t'
      | Raise e => (t, Raise e)
      end
  end.

Definition copy_script (script directory : string) (t : tree) : result tree :=
  copyfile (caterpillar_js c) script (path_join directory script) t.

(** ** Editing the code: [insert_todos_into_file] and [edit_code] *)

Definition insert_todos_into_file (js_path : string) (t : tree) : result tree :=
  match t !! js_path with
  | Some content =>
      Ok (write_file js_path (insert_todos (api_member_used c) content) t)
  | None => Raise (IOError js_path)
  end.

(** The body of the walk for one file. *)
Definition edit_file (required_js_paths : list string)
    (chrome_app_manifest : gmap string json) (cfg : config)
    (path : string) (t : tree) : result tree :=
  let filename := basename path in
  let root_path := root_path_of path in
  if endswith filename ".js" then insert_todos_into_file path t
  else if endswith filename ".html" then
    match t !! path with
    | Some content =>
        let doc := html_parser c content in
        doc ← inject_script_tags doc required_js_paths root_path
                (boilerplate_dir cfg);
        let doc := inject_misc_tags doc chrome_app_manifest root_path in
        Ok (write_file path (prettify c doc) t)
    | None => Raise (IOError path)
    end
  else Ok t.

Fixpoint edit_files (required_js_paths : list string)
    (chrome_app_manifest : gmap string json) (cfg : config)
    (paths : list string) (t : tree) : tree * result unit :=
  match paths with
  | [] => (t, Ok ())
  | path :: rest =>
      match edit_file required_js_paths chrome_app_manifest cfg path t with
      | Ok t' => edit_files required_js_paths chrome_app_manifest cfg rest t'
      | Raise e => (t, Raise e)
      end
  end.

Definition edit_code (required_js_paths : list string)
    (chrome_app_manifest : gmap string json) (cfg : config) (t : tree)
  : tree * result unit :=
  edit_files required_js_paths chrome_app_manifest cfg (walk t) t.

(** ** Annotating a whole tree: [insert_todos_into_directory] *)

(** The walk of [insert_todos_into_directory] over the files of the
    tree: the files whose name ends in [.js] are annotated, the others
    are passed over. *)
Fixpoint insert_todos_into_files (paths : list string) (t : tree)
  : tree * result unit :=
  match paths with
  | [] => (t, Ok ())
  | path :: rest =>
      if endswith (basename path) ".js" then
        match insert_todos_into_file path t with
        | Ok t' => insert_todos_into_files rest t'
        | Raise e => (t, Raise e)
        end
      else insert_todos_into_files rest t
  end.

Definition insert_todos_into_directory (t : tree) : tree * result unit :=
  insert_todos_into_files (walk t) t.

(** ** The service worker: [add_service_worker] and [add_app_info] *)

Definition add_service_worker (chrome_app_manifest : gmap string json)
    (required_js_paths : list string) (boilerplate_dir : string) (t : tree)
  : tree * result unit :=
  (* Copy the other scripts before generating the caching script. *)
  match copy_script REGISTER_SCRIPT_NAME boilerplate_dir t with
  | Raise e => (t, Raise e)
  | Ok t1 =>
      match copy_script SW_STATIC_SCRIPT_NAME boilerplate_dir t1 with
      | Raise e => (t1, Raise e)
      | Ok t2 =>
          match generate_service_worker (randrange c MAX_CACHE_VERSION) t2 chrome_app_manifest
                  required_js_paths boilerplate_dir with
          | Raise e => (t2, Raise e)
          | Ok sw_js =>
              (* The service worker must be in the root. *)
              (write_file SW_SCRIPT_NAME sw_js t2, Ok ())
          end
      end
  end.

Definition add_app_info (chrome_app_manifest : gmap string json) (t : tree) : tree :=
  let js_manifest := json_dumps c 2 (JDict chrome_app_manifest) in
  let app_info_js :=
    "caterpillar_.manifest = " +:+ js_manifest +:+ ";" +:+ newline_lf in
  write_file INFO_SCRIPT_NAME app_info_js t.

(** ** Installing dependencies *)

(** [install_dependency]: the exit code of the process is not looked
    at. *)
Definition install_dependency (call : list string) (t : tree)
  : tree * result unit :=
  let p := popen c call t in
  let stdout := cp_stdout p in
  (* If installation failed, stdout will be empty. *)
  if bool_decide (stdout = EmptyString) then
    (cp_tree p,
     Raise (InstallationError
              ("Failed to install with command: `" +:+ str_join " " call +:+ "`.")))
  else (cp_tree p, Ok ()).

(** One turn of the loop of [install_dependencies]. *)
Definition install_one (dep : dependency) : M unit :=
  try_except
    (if String.eqb (dep_manager dep) "bower" then
       in_output_dir (install_dependency ["bower"; "install"; dep_name dep])
     else if String.eqb (dep_manager dep) "npm" then
       in_output_dir (install_dependency ["npm"; "install"; dep_name dep])
     else
       raise (ValueError ("Invalid dependency: No such manager `" +:+
                          dep_manager dep +:+ "`.")))
    is_InstallationError
    (fun _ =>
       logging WARNING ("Failed to install dependency `" +:+ dep_name dep +:+
                        "` with " +:+ dep_manager dep)).

Fixpoint install_dependencies (dependencies : list dependency) : M unit :=
  match dependencies with
  | [] => mret ()
  | dep :: rest => _ ← install_one dep; install_dependencies rest
  end.

(** ** The conversion: [convert_app] *)

(** The status loop over [polyfill_manifests.iteritems()]. *)
Fixpoint status_loop (items : list (string * polyfill_manifest)) : string :=
  match items with
  | [] => "total"
  | (api, manifest) :: rest =>
      if negb (String.eqb (pm_status manifest) "total") &&
         negb (bool_decide (api ∈ ["app.window"; "app.runtime"]))
      then "partial"
      else status_loop rest
  end.

Definition conversion_status (polyfill_manifests : gmap string polyfill_manifest)
  : string :=
  status_loop (map_to_list polyfill_manifests).

(** Use default manifests for unpolyfillable APIs. *)
Definition with_defaults (polyfill_manifests : gmap string polyfill_manifest)
    (not_polyfillable : list string) : gmap string polyfill_manifest :=
  foldl (fun manifests api => <[api := default_manifest api]> manifests)
        polyfill_manifests not_polyfillable.

Definition dependency_path (dep : dependency) : result string :=
  folder ← dict_getitem DEPENDENCY_MANAGER_INSTALL_FOLDER (dep_manager dep);
  Ok (path_joins ".." [folder; dep_name dep; dep_path dep]).

(** The local variables of [convert_app] that are still needed once the
    dependencies are installed. *)
Record conversion : Type := {
  chrome_app_manifest : gmap string json;
  polyfill_manifests : gmap string polyfill_manifest;
  not_polyfillable : list string;
  dependencies : list dependency;
  required_dependency_paths : list string;
  required_polyfill_paths : list string;
}.

(** [convert_app] up to and including [copy_static_code] (lines 607 to
    713); [None] is returned where [convert_app] returns early. *)
Definition convert_app_stage (cfg : config) (force : bool) : M (option conversion) :=
  let boilerplate_dir := boilerplate_dir cfg in
  staged ← try_except (_ ← setup_output_dir force; mret true) is_OSError
             (fun e => _ ← logging ERROR (message e); mret false);
  if negb staged then mret None else
  (* Determine which Chrome Apps APIs are being used in the Chrome App. *)
  apis ← in_output_dir (reading (app_apis c));
  _ ← match apis with
      | [] => mret ()
      | _ => logging INFO ("Found Chrome APIs: " +:+ str_join ", " apis)
      end;
  (* Determine which Chrome Apps APIs can be polyfilled, and which cannot. *)
  let polyfillable := filter (fun api => api ∈ POLYFILLS) apis in
  let not_polyfillable := filter (fun api => api ∉ POLYFILLS) apis in
  _ ← logging INFO ("Polyfilled Chrome APIs: " +:+ str_join ", " polyfillable);
  _ ← logging WARNING
        ("Could not polyfill Chrome APIs: " +:+ str_join ", " not_polyfillable);
  (* Read in the polyfill manifests and store their dependencies. *)
  let polyfill_manifests := load_many c polyfillable in
  let dependencies :=
    flat_map pm_dependencies (map_to_list polyfill_manifests).*2 in
  let required_always_paths := ["caterpillar.js"; REGISTER_SCRIPT_NAME] in
  required_dependency_paths ← lift (mapM dependency_path dependencies);
  let required_polyfill_paths := polyfill_paths polyfillable in
  let required_generated_paths : list string := [] in
  (* Read in and check the manifest file. *)
  checked ← try_except
              (manifest ← in_input_dir (manifest_get c);
               manifest ← in_input_dir (manifest_localize c manifest);
               _ ← lift (manifest_verify c manifest);
               mret (Some manifest))
              is_ValueError
              (fun e => _ ← logging ERROR (message e); mret None);
  match checked with
  | None => mret None
  | Some chrome_app_manifest =>
      let start_url := start_url cfg in
      _ ← logging INFO ("Got start URL from config file: `" +:+ start_url +:+ "`");
      (* Generate a progressive web app manifest. *)
      web_manifest ← lift (generate_web_manifest chrome_app_manifest start_url);
      _ ← in_output_dir (writing
             (write_file WEB_MANIFEST_FILENAME (json_dumps c 4 (JDict web_manifest))));
      (* Generate and write an app info file. *)
      _ ← in_output_dir (writing (add_app_info chrome_app_manifest));
      let required_generated_paths :=
        required_generated_paths ++ [path_join ".." INFO_SCRIPT_NAME] in
      (* Remove unnecessary files from the output web app. *)
      _ ← in_output_dir (updating cleanup_output_dir);
      (* Edit the HTML and JS code of the output web app. *)
      let required_script_paths :=
        required_always_paths ++ required_generated_paths ++
        required_dependency_paths ++ required_polyfill_paths in
      _ ← in_output_dir (edit_code required_script_paths chrome_app_manifest cfg);
      let required_always_paths := required_always_paths ++ [SW_STATIC_SCRIPT_NAME] in
      (* Copy static code from Caterpillar into the output web app. *)
      let required_static_paths := required_always_paths ++ required_polyfill_paths in
      _ ← in_output_dir (copy_static_code required_static_paths boilerplate_dir);
      mret (Some {| chrome_app_manifest := chrome_app_manifest;
                    polyfill_manifests := polyfill_manifests;
                    not_polyfillable := not_polyfillable;
                    dependencies := dependencies;
                    required_dependency_paths := required_dependency_paths;
                    required_polyfill_paths := required_polyfill_paths |})
  end.

(** [convert_app] from [add_service_worker] on (lines 723 to 760); the
    status handed to the report generator is returned. *)
Definition convert_app_finish (cfg : config) (cv : conversion) : M (option string) :=
  (* Generate and write a service worker. *)
  let required_sw_paths :=
    required_dependency_paths cv ++ required_polyfill_paths cv in
  _ ← in_output_dir (add_service_worker (chrome_app_manifest cv)
                       required_sw_paths (boilerplate_dir cfg));
  _ ← logging INFO "Conversion complete.";
  _ ← logging INFO "Generating conversion report.";
  let polyfill_manifests :=
    with_defaults (polyfill_manifests cv) (not_polyfillable cv) in
  let status := conversion_status polyfill_manifests in
  (* Finally, generate and write a conversion report. *)
  w ← get_world;
  _ ← in_output_dir (writing
         (report_generate_and_write c (report_dir cfg) (chrome_app_manifest cv)
            polyfill_manifests status (captured_warnings w)));
  _ ← logging INFO "Done.";
  mret (Some status).

(** [convert_app], with the installation of the dependencies (lines 715
    to 721) between its two parts: the result is the status of a completed
    conversion, [None] when the conversion logged an error and returned,
    and an exception when one was left uncaught. *)
Definition convert_app (cfg : config) (force : bool) : M (option string) :=
  staged ← convert_app_stage cfg force;
  match staged with
  | None => mret None
  | Some cv =>
      (* Install the polyfill dependencies. *)
      installed ← try_except
                    (_ ← install_dependencies (dependencies cv); mret true)
                    is_ValueError
                    (fun e => _ ← logging ERROR (message e); mret false);
      if negb installed then mret None else convert_app_finish cfg cv
  end.

End Pipeline.

(** ** Notions used in the statements *)

(** A dependency on one of the two managers [install_dependencies]
    knows. *)
Definition recognized (dep : dependency) : Prop :=
  dep_manager dep = "bower" \/ dep_manager dep = "npm".

(** The warning logged for a dependency that failed to install. *)
Definition install_warning (dep : dependency) : level * string :=
  (WARNING, "Failed to install dependency `" +:+ dep_name dep +:+
            "` with " +:+ dep_manager dep).

(** The text of the service worker for the files of [snapshot]. *)
Definition service_worker_text (c : collaborators) (snapshot : tree)
    (required_js_paths scripts : list string) (boilerplate_dir : string) : string :=
  SW_FORMAT_STRING (randrange c MAX_CACHE_VERSION)
    (str_join ("," +:+ newline_lf +:+ "  ")
       ((fun fp => "'" +:+ fp +:+ "'") <$> all_filepaths snapshot))
    boilerplate_dir +:+
  join_lines (import_statement <$>
                ((path_join boilerplate_dir <$> required_js_paths) ++ scripts)).

(** The dependencies of the polyfills of the APIs found in a tree. *)
Definition dependencies_of (c : collaborators) (t : tree) : list dependency :=
  flat_map pm_dependencies
    (map_to_list (load_many c (filter (fun api => api ∈ POLYFILLS) (app_apis c t)))).*2.

(** The APIs left out of the status: the window and runtime life cycle. *)
Definition exempt (api : string) : Prop := api ∈ ["app.window"; "app.runtime"].

(** The registered or default descriptor of a detected API. *)
Definition descriptor (c : collaborators) (api : string) : polyfill_manifest :=
  if bool_decide (api ∈ POLYFILLS) then polyfill_registry c api
  else default_manifest api.

(** The polyfill manifests [convert_app] hands to the report generator
    for the detected [apis]. *)
Definition resolved (c : collaborators) (apis : list string)
  : gmap string polyfill_manifest :=
  with_defaults (load_many c (filter (fun api => api ∈ POLYFILLS) apis))
                (filter (fun api => api ∉ POLYFILLS) apis).

(** What the annotation of a tree leaves in the file at [path]. *)
Definition annotated (c : collaborators) (path content : string) : string :=
  if endswith (basename path) ".js" then insert_todos (api_member_used c) content
  else content.

(** The start tag of an element: its name and its attributes. *)
Definition start_tag (n : node) : option (string * list (string * json)) :=
  match n with
  | Tag name attrs _ => Some (name, attrs)
  | NavigableString _ => None
  end.

Definition start_tags (ns : list node) : list (string * list (string * json)) :=
  omap start_tag ns.

(** A search criterion that looks at the name and the attributes of a
    tag only, as those of [soup(name, attrs)] do. *)
Definition tag_predicate (p : node -> bool) : Prop :=
  forall name attrs contents contents',
    p (Tag name attrs contents) = p (Tag name attrs contents').

(** The elements of a document that [p] accepts, in document order,
    each by its start tag. *)
Definition matching (p : node -> bool) (doc : soup)
  : list (string * list (string * json)) :=
  start_tags (find_all p doc).

(** A reference to a tag, or to the document itself: a place that has
    contents. *)
Fixpoint is_container (r : ref) (doc : list node) : Prop :=
  match r with
  | [] => True
  | i :: r' =>
      match doc !! i with
      | Some (Tag _ _ contents) => is_container r' contents
      | _ => False
      end
  end.

(** The criteria of the two searches for meta tags in
    [inject_misc_tags]: [soup('meta', {'name': tag})] and
    [soup('meta', {'charset': True})]. *)
Definition meta_named (tag : string) (n : node) : bool :=
  tag_named "meta" n && attr_is "name" tag n.

Definition meta_charset (n : node) : bool :=
  tag_named "meta" n && has_attr "charset" n.

(** The link to the web manifest that [inject_misc_tags] adds. *)
Definition manifest_link (root_path : string) : node :=
  Tag "link" [("rel", JStr "manifest");
              ("href", JStr (path_join root_path WEB_MANIFEST_FILENAME))] [].

(** The meta tag [inject_misc_tags] adds for a member of the manifest,
    when the document has none of that name. *)
Definition new_meta (chrome_app_manifest : gmap string json) (doc : soup)
    (tag : string) : list node :=
  match chrome_app_manifest !! tag with
  | Some content =>
      match find_all (meta_named tag) doc with
      | [] => [Tag "meta" [("content", content); ("name", JStr tag)] []]
      | _ => []
      end
  | None => []
  end.

(** All the elements [inject_misc_tags] adds to a document. *)
Definition misc_tags (doc : soup) (chrome_app_manifest : gmap string json)
    (root_path : string) : list node :=
  (match find (tag_named "head") doc with
   | Some _ => []
   | None => [Tag "head" [] []]
   end) ++
  [manifest_link root_path] ++
  flat_map (new_meta chrome_app_manifest doc) ["description"; "author"; "name"] ++
  (match find_all meta_charset doc with
   | [] => [Tag "meta" [("charset", JStr "utf-8")] []]
   | _ => []
   end).

(** A property of the world that logging and writing to an existing
    output directory keep. *)
Definition stable (I : world -> Prop) : Prop :=
  (forall w lvl msg, I w ->
     I {| input_dir := input_dir w; output_dir := output_dir w;
          log := log w ++ [(lvl, msg)] |}) /\
  (forall w t t', I w -> output_dir w = Some t ->
     I {| input_dir := input_dir w; output_dir := Some t'; log := log w |}).

(** A computation that keeps [I], however it ends. *)
Definition always {A : Type} (I : world -> Prop) (m : M A) : Prop :=
  forall w, I w -> I (m w).1.


(** ** A sample conversion *)

(** Concrete collaborators, to run the pipeline on concrete inputs. *)
Module Sample.

Definition is_word (ch : ascii) : bool :=
  let n := nat_of_ascii ch in
  bool_decide (48 <= n <= 57) || bool_decide (65 <= n <= 90) ||
  bool_decide (97 <= n <= 122) || bool_decide (n = 95).

Fixpoint member_name (s : string) : string :=
  match s with
  | EmptyString => EmptyString
  | String ch rest =>
      if is_word ch || Ascii.eqb ch "."%char then String ch (member_name rest)
      else EmptyString
  end.

(** Modelled from the spec: [chrome_app.apis.api_member_used] is not
    among the sources.  The match is lexical and per line: a line that
    contains a call pattern such as [chrome.namespace.member(...)] yields
    one reference, here the dotted name that follows the first [chrome.]
    of the line. *)
Fixpoint lexical_matcher (line : string) : option string :=
  match line with
  | EmptyString => None
  | String ch rest =>
      if String.prefix "chrome." line
      then Some (member_name (String.substring 7 (String.length line) line))
      else lexical_matcher rest
  end.

(** The source manifest [chrome_app.manifest.get] reads. *)
Definition manifest : gmap string json :=
  {[ "name" := JStr "Example";
     "icons" := JDict {[ "16" := JStr "icon16.png"; "128" := JStr "icon128.png" ]};
     "app" := JDict {[ "background" :=
                         JDict {[ "scripts" := JList [JStr "background.js"] ]} ]};
     "version" := JStr "1.0" ]}.

Definition get (t : tree) : result (gmap string json) :=
  match t !! "manifest.json" with
  | Some _ => Ok manifest
  | None => Raise (ValueError "No manifest.")
  end.

Definition verify (m : gmap string json) : result unit :=
  match m !! "name", background_scripts m with
  | Some _, Ok _ => Ok ()
  | _, _ => Raise (ValueError "Manifest is missing a field.")
  end.

Definition report (report_dir : string) (m : gmap string json)
    (manifests : gmap string polyfill_manifest) (status : string)
    (warnings : list string) (t : tree) : tree :=
  <[path_join report_dir "report.html" := status]> t.

Definition parse (text : string) : soup :=
  [Tag "html" [] [Tag "body" [] [NavigableString text]]].

Definition js : tree :=
  {[ "caterpillar.js" := "// caterpillar";
     "register_sw.js" := "// register";
     "sw_static.js" := "// static";
     "polyfills/tts.polyfill.js" := "// tts";
     "polyfills/storage.polyfill.js" := "// storage" ]}.

Definition pipeline (apis : list string)
    (registry : string -> polyfill_manifest)
    (run : list string -> tree -> completed_process) : collaborators :=
  {| CHROME_APP_MANIFEST_FILENAME := "manifest.json";
     app_apis := fun _ => apis;
     api_member_used := lexical_matcher;
     manifest_get := get;
     manifest_localize := fun m _ => Ok m;
     manifest_verify := verify;
     polyfill_registry := registry;
     report_generate_and_write := report;
     html_parser := parse;
     prettify := fun _ => "<html></html>";
     json_dumps := fun _ _ => "{}";
     randrange := fun _ => 42%Z;
     popen := run;
     caterpillar_js := js |}.

(** A registry whose polyfills are all total and need one bower
    package. *)
Definition registry (api : string) : polyfill_manifest :=
  {| pm_status := "total";
     pm_dependencies :=
       [{| dep_name := api +:+ "-lib"; dep_path := "lib.js";
           dep_manager := "bower" |}] |}.

(** A registry with a dependency on a manager that is not known. *)
Definition registry_yarn (api : string) : polyfill_manifest :=
  {| pm_status := "total";
     pm_dependencies :=
       [{| dep_name := api +:+ "-lib"; dep_path := "lib.js";
           dep_manager := "yarn" |}] |}.

(** A package manager that installs one file and reports it. *)
Definition installing (call : list string) (t : tree) : completed_process :=
  {| cp_tree := <["z.js" := "// installed"]> t;
     cp_stdout := "installed"; cp_stderr := EmptyString; cp_returncode := 0 |}.

(** A package manager that prints nothing and exits with code 0. *)
Definition silent (call : list string) (t : tree) : completed_process :=
  {| cp_tree := t;
     cp_stdout := EmptyString; cp_stderr := EmptyString; cp_returncode := 0 |}.

Definition settings : config :=
  {| boilerplate_dir := "caterpillar"; report_dir := "report";
     start_url := "index.html" |}.

(** The Chrome App: a manifest, a script and a script in a folder. *)
Definition app : tree :=
  {[ "manifest.json" := "{}";
     "x.js" := "chrome.tts.speak('hi');" +:+ newline_lf;
     "a/y.js" := "var y;" +:+ newline_lf ]}.

Definition start : world :=
  {| input_dir := Some app; output_dir := None; log := [] |}.

(** The APIs found in the app: one with a polyfill, one of the exempted
    window and runtime APIs. *)
Definition apis : list string := ["tts"; "app.window"].

(** The conversion once the tree is staged, edited and has its static
    code, with the package manager [installing]. *)
Definition staged_world : world :=
  (convert_app_stage (pipeline apis registry installing) settings false start).1.

Definition staged : conversion :=
  {| chrome_app_manifest := manifest;
     polyfill_manifests := {[ "tts" := registry "tts" ]};
     not_polyfillable := ["app.window"];
     dependencies :=
       [{| dep_name := "tts-lib"; dep_path := "lib.js"; dep_manager := "bower" |}];
     required_dependency_paths := ["../bower_components/tts-lib/lib.js"];
     required_polyfill_paths := ["polyfills/tts.polyfill.js"] |}.

(** The files after the installation: those of the staged tree and
    [z.js]. *)
Definition installed : tree :=
  {[ "x.js" := "// TODO(Caterpillar): Check usage of tts.speak." +:+ newline_lf +:+
               "chrome.tts.speak('hi');" +:+ newline_lf;
     "a/y.js" := "var y;" +:+ newline_lf;
     "manifest.webmanifest" := "{}";
     "app.info.js" := "caterpillar_.manifest = {};" +:+ newline_lf;
     "caterpillar/caterpillar.js" := "// caterpillar";
     "caterpillar/register_sw.js" := "// register";
     "caterpillar/sw_static.js" := "// static";
     "caterpillar/polyfills/tts.polyfill.js" := "// tts";
     "z.js" := "// installed" ]}.

(** The end of the conversion with [installing]. *)
Definition final : world :=
  (convert_app (pipeline apis registry installing) settings false start).1.

(** A tree that already holds a file named like the service worker. *)
Definition with_worker : tree :=
  {[ "index.html" := "<p>hi</p>"; "sw.js" := "// the worker of the app" ]}.

(** The collaborators of the sample conversion. *)
Definition demo : collaborators := pipeline apis registry installing.
Definition demo_silent : collaborators := pipeline apis registry silent.

(** A world in which the output directory is already there. *)
Definition occupied : world :=
  {| input_dir := Some app; output_dir := Some with_worker; log := [] |}.

(** A script with one call site. *)
Definition call_site : string := "chrome.tts.speak('hi');" +:+ newline_lf.

(** The tree [generate_service_worker] walks for [with_worker]. *)
Definition snapshot : tree :=
  <["caterpillar/sw_static.js" := "// static"]>
    (<["caterpillar/register_sw.js" := "// register"]> with_worker).

(** A document without a script element and without a body. *)
Definition fragment : soup := [Tag "p" [] [NavigableString "hi"]].

(** A document with one script element [S]. *)
Definition page : soup :=
  [Tag "html" []
     [Tag "head" [] [];
      Tag "body" []
        [Tag "p" [] [NavigableString "hi"];
         Tag "script" [("src", JStr "S.js")] []]]].

(** A web page, a script and a style sheet. *)
Definition site : tree :=
  {[ "index.html" := "<p>hi</p>";
     "x.js" := "chrome.tts.speak('hi');" +:+ newline_lf;
     "style.css" := "p {}" ]}.

(** The same files as [site], with another page. *)
Definition site' : tree :=
  {[ "index.html" := "<p>bye</p>";
     "x.js" := "chrome.tts.speak('hi');" +:+ newline_lf;
     "style.css" := "p {}" ]}.

(** A world without the input directory, and with an output directory. *)
Definition lost : world :=
  {| input_dir := None; output_dir := Some with_worker; log := [] |}.




End Sample.

(** * Properties *)

(** ** Strings and lines *)

Lemma app_string_cons (c : ascii) (a b : string) :
  String c a +:+ b = String c (a +:+ b).
Proof. reflexivity. Qed.

Lemma app_string_nil_l (b : string) : EmptyString +:+ b = b.
Proof. reflexivity. Qed.

Lemma length_app_string (a b : string) :
  String.length (a +:+ b) = String.length a + String.length b.
Proof.
  induction a as [|c a IH]; [done|].
  rewrite app_string_cons. simpl. by rewrite IH.
Qed.

Lemma app_string_assoc (a b c : string) : (a +:+ b) +:+ c = a +:+ (b +:+ c).
Proof.
  induction a as [|x a IH]; [done|].
  by rewrite !app_string_cons, IH.
Qed.

Lemma app_string_nil_r (a : string) : a +:+ EmptyString = a.
Proof.
  induction a as [|x a IH]; [done|].
  by rewrite app_string_cons, IH.
Qed.

Lemma join_lines_cons (l : string) (ls : list string) :
  join_lines (l :: ls) = l +:+ join_lines ls.
Proof.
  unfold join_lines. destruct ls as [|l' ls]; simpl.
  - by rewrite app_string_nil_r.
  - done.
Qed.

Lemma join_lines_app (xs ys : list string) :
  join_lines (xs ++ ys) = join_lines xs +:+ join_lines ys.
Proof.
  induction xs as [|x xs IH]; [done|].
  rewrite <- app_comm_cons, !join_lines_cons, IH. by rewrite app_string_assoc.
Qed.

(** Reading lines loses nothing: the lines concatenate to the content. *)
Lemma join_readlines (s : string) : join_lines (readlines s) = s.
Proof.
  induction s as [|c s IH]; [done|]. simpl.
  destruct (Ascii.eqb c LF).
  - by rewrite join_lines_cons, IH.
  - destruct (readlines s) as [|l ls] eqn:E.
    + by rewrite <- IH.
    + rewrite join_lines_cons in IH. by rewrite join_lines_cons, <- IH.
Qed.

Lemma readlines_app_terminated (a b : string) :
  terminated a -> readlines (a +:+ b) = readlines a ++ readlines b.
Proof.
  intros [a' ->]. induction a' as [|c a' IH]; simpl.
  - done.
  - rewrite IH. destruct (Ascii.eqb c LF); [done|].
    destruct (readlines (a' +:+ newline_lf)) as [|l ls] eqn:E; [|done].
    exfalso. clear IH. destruct a'; simpl in E; [discriminate|].
    destruct (Ascii.eqb a LF); [discriminate|].
    destruct (readlines (a' +:+ newline_lf)); discriminate.
Qed.

Lemma terminated_cons c l : terminated l -> terminated (String c l).
Proof. intros [l' ->]. by exists (String c l'). Qed.

Lemma readlines_file_lines (s : string) : file_lines (readlines s).
Proof.
  induction s as [|c s IH]; simpl; [constructor|].
  destruct (Ascii.eqb c LF) eqn:Ec.
  - apply Ascii.eqb_eq in Ec as ->.
    destruct (readlines s) eqn:E.
    + apply file_lines_last, one_line_lf.
    + apply file_lines_cons; [apply one_line_lf | by exists EmptyString | done].
  - destruct (readlines s) as [|l ls] eqn:E.
    + by apply file_lines_last, one_line_last.
    + inversion IH; subst.
      * by apply file_lines_last, one_line_cons.
      * apply file_lines_cons; [by apply one_line_cons | by apply terminated_cons | done].
Qed.

Lemma readlines_one_line (l : string) : one_line l -> readlines l = [l].
Proof.
  induction 1 as [|c Hc|c l Hc Hl IH]; simpl.
  - done.
  - by rewrite Hc.
  - by rewrite Hc, IH.
Qed.

Lemma terminated_app (a b : string) : terminated b -> terminated (a +:+ b).
Proof. intros [b' ->]. exists (a +:+ b'). by rewrite app_string_assoc. Qed.

Section ScriptAnnotationFacts.
Context (api_member_used : string -> option string).

Lemma todo_comment_terminated api_call line :
  terminated (todo_comment api_call
    (if endswith line newline_crlf then newline_crlf else newline_lf)).
Proof.
  unfold todo_comment. do 3 apply terminated_app.
  destruct (endswith line newline_crlf).
  - by exists (String CR EmptyString).
  - by exists EmptyString.
Qed.

Lemma out_js_lines_cons line rest :
  out_js_lines api_member_used (line :: rest) =
  match api_member_used line with
  | Some api_call =>
      todo_comment api_call
        (if endswith line newline_crlf then newline_crlf else newline_lf)
      :: line :: out_js_lines api_member_used rest
  | None => line :: out_js_lines api_member_used rest
  end.
Proof. reflexivity. Qed.

(** Without a flagged line the pass copies the file. *)
Lemma out_js_lines_unflagged lines :
  Forall (fun l => ~ flagged api_member_used l) lines ->
  out_js_lines api_member_used lines = lines.
Proof.
  induction 1 as [|l ls Hl _ IH]; [done|].
  rewrite out_js_lines_cons. destruct (api_member_used l) eqn:E.
  - exfalso. apply Hl. unfold flagged. by rewrite E.
  - by rewrite IH.
Qed.

(** The pass never shortens a file, and lengthens it when a line is
    flagged. *)
Lemma out_js_lines_length lines :
  String.length (join_lines lines) <=
  String.length (join_lines (out_js_lines api_member_used lines)).
Proof.
  induction lines as [|l ls IH]; [done|].
  rewrite out_js_lines_cons.
  destruct (api_member_used l);
    rewrite !join_lines_cons, !length_app_string; lia.
Qed.

Lemma out_js_lines_longer lines :
  Exists (flagged api_member_used) lines ->
  String.length (join_lines lines) <
  String.length (join_lines (out_js_lines api_member_used lines)).
Proof.
  induction 1 as [l ls [a Ha]|l ls _ IH]; rewrite out_js_lines_cons.
  - rewrite Ha. rewrite !join_lines_cons, !length_app_string.
    pose proof (out_js_lines_length ls).
    unfold todo_comment. rewrite !length_app_string. simpl. lia.
  - destruct (api_member_used l);
      rewrite !join_lines_cons, !length_app_string; lia.
Qed.

(** Every line of the input is still a line of the annotated file. *)
Lemma readlines_out_js_lines lines l :
  file_lines lines -> l ∈ lines ->
  l ∈ readlines (join_lines (out_js_lines api_member_used lines)).
Proof.
  induction 1 as [|l0 Hl0|l0 ls Hl0 Ht Hls IH]; intros Hin.
  - by apply elem_of_nil in Hin.
  - apply list_elem_of_singleton in Hin as ->. rewrite out_js_lines_cons.
    assert (readlines (join_lines [l0]) = [l0]) as Hone.
    { rewrite join_lines_cons. change (join_lines []) with EmptyString.
      rewrite app_string_nil_r. by apply readlines_one_line. }
    change (out_js_lines api_member_used []) with (@nil string).
    destruct (api_member_used l0).
    + rewrite join_lines_cons, readlines_app_terminated
        by apply todo_comment_terminated.
      apply elem_of_app. right. rewrite Hone. by apply list_elem_of_singleton.
    + rewrite Hone. by apply list_elem_of_singleton.
  - assert (l ∈ readlines (l0 +:+
        join_lines (out_js_lines api_member_used ls))) as Hrest.
    { rewrite readlines_app_terminated by done.
      rewrite readlines_one_line by done.
      apply elem_of_cons in Hin as [->|Hin]; [by left | right; by apply IH]. }
    rewrite out_js_lines_cons. destruct (api_member_used l0).
    + rewrite join_lines_cons, readlines_app_terminated
        by apply todo_comment_terminated.
      apply elem_of_app. right. by rewrite join_lines_cons.
    + by rewrite join_lines_cons.
Qed.

(** The pass is the identity exactly on files without a flagged line. *)
Lemma insert_todos_fixpoint content :
  insert_todos api_member_used content = content <->
  Forall (fun l => ~ flagged api_member_used l) (readlines content).
Proof.
  unfold insert_todos. split.
  - intros Heq. apply Forall_forall. intros l Hl Hfl.
    assert (Exists (flagged api_member_used) (readlines content)) as Hex
      by (apply Exists_exists; eauto).
    apply out_js_lines_longer in Hex.
    rewrite Heq, join_readlines in Hex. lia.
  - intros Hall. by rewrite out_js_lines_unflagged, join_readlines.
Qed.

(** C1 (as amended): a second run of the annotation pass leaves the
    output of the first run unchanged exactly when no line of the
    original file is flagged by the matcher; with a flagged line the
    second run annotates again. *)
Theorem insert_todos_twice content :
  insert_todos api_member_used (insert_todos api_member_used content)
    = insert_todos api_member_used content
  <-> Forall (fun l => ~ flagged api_member_used l) (readlines content).
Proof.
  split.
  - intros Heq. apply insert_todos_fixpoint in Heq.
    apply Forall_forall. intros l Hl.
    rewrite Forall_forall in Heq. apply Heq.
    apply readlines_out_js_lines; [apply readlines_file_lines | done].
  - intros Hall. apply insert_todos_fixpoint in Hall. by rewrite !Hall.
Qed.

End ScriptAnnotationFacts.

(** ** Markup documents *)

(** Induction over the document tree. *)
Lemma node_forall_ind (P : node -> Prop) :
  (forall name attrs contents, Forall P contents -> P (Tag name attrs contents)) ->
  (forall text, P (NavigableString text)) ->
  forall n, P n.
Proof.
  intros Htag Htext. fix IH 1. intros [name attrs contents|text].
  - apply Htag. induction contents as [|n ns IHns]; constructor; [apply IH | apply IHns].
  - apply Htext.
Qed.

Section DocumentFacts.
Context (p : node -> bool).

Lemma find_in_tag name attrs contents :
  find_in p (Tag name attrs contents) =
  if p (Tag name attrs contents) then Some [] else find_from p contents 0.
Proof.
  simpl. destruct (p (Tag name attrs contents)); [done|].
  generalize 0. induction contents as [|n ns IH]; intros i; simpl; [done|].
  destruct (find_in p n); [done | apply IH].
Qed.

Lemma find_from_cons n ns i :
  find_from p (n :: ns) i =
  match find_in p n with
  | Some q => Some (i :: q)
  | None => find_from p ns (S i)
  end.
Proof. reflexivity. Qed.

(** The index a search starts from only shifts the result. *)
Lemma find_from_shift ns i :
  find_from p ns i =
  (fun r => match r with j :: q => (i + j) :: q | [] => [] end) <$> find_from p ns 0.
Proof.
  revert i. induction ns as [|n ns IH]; intros i; [done|].
  rewrite !find_from_cons. destruct (find_in p n).
  - simpl. by rewrite Nat.add_0_r.
  - rewrite (IH (S i)), (IH 1). destruct (find_from p ns 0) as [[|j q]|]; simpl; [done| |done].
    do 2 f_equal. lia.
Qed.

Lemma find_from_None ns i :
  find_from p ns i = None <-> Forall (fun n => find_in p n = None) ns.
Proof.
  revert i. induction ns as [|n ns IH]; intros i.
  - split; [constructor | done].
  - rewrite find_from_cons. destruct (find_in p n) eqn:E.
    + split; [done|]. intros H. apply Forall_cons in H as [H _]. congruence.
    + rewrite IH. split; [by constructor|]. by intros [_ ?]%Forall_cons.
Qed.

(** Nothing is found where nothing matches. *)
Lemma find_in_None n : find_in p n = None -> find_all_in p n = [].
Proof.
  induction n as [name attrs contents IH|text] using node_forall_ind; [|done].
  rewrite find_in_tag. simpl. destruct (p (Tag name attrs contents)); [done|].
  intros Hnone%find_from_None. simpl.
  induction IH as [|n ns Hn _ IHns]; [done|].
  apply Forall_cons in Hnone as [Hn' Hns']. simpl.
  by rewrite Hn, IHns.
Qed.

Lemma find_None_find_all doc : find p doc = None -> find_all p doc = [].
Proof.
  unfold find, find_all. intros Hnone%find_from_None.
  induction Hnone as [|n ns Hn _ IH]; [done|].
  simpl. by rewrite find_in_None, IH.
Qed.

Lemma first_at_nonempty r doc : first_at p r doc -> r <> [].
Proof. by destruct 1. Qed.

Lemma find_in_self n : p n = true -> find_in p n = Some [].
Proof. intros H. destruct n; simpl; by rewrite H. Qed.

Lemma find_in_not_self n r : find_in p n = Some r -> r <> [] -> p n = false.
Proof.
  intros Hfind Hr. destruct (p n) eqn:E; [|done].
  rewrite find_in_self in Hfind by done. congruence.
Qed.

Lemma find_from_first_at ns :
  Forall (fun n => forall name attrs contents q,
            n = Tag name attrs contents -> p n = false ->
            find_from p contents 0 = Some q -> first_at p q contents) ns ->
  forall r, find_from p ns 0 = Some r -> first_at p r ns.
Proof.
  induction 1 as [|n ns Hn _ IH]; intros r; [done|].
  rewrite find_from_cons. destruct (find_in p n) as [q|] eqn:E.
  - intros [= <-]. destruct (p n) eqn:Hp.
    + rewrite find_in_self in E by done. injection E as <-. by constructor.
    + destruct n as [name attrs contents|text]; [|simpl in E; by rewrite Hp in E].
      rewrite find_in_tag, Hp in E. constructor; [done|]. by eapply Hn.
  - rewrite find_from_shift.
    destruct (find_from p ns 0) as [r0|] eqn:E0; [|done].
    specialize (IH r0 eq_refl). simpl.
    destruct r0 as [|j q]; [by apply first_at_nonempty in IH|].
    intros [= <-]. by constructor.
Qed.

Lemma find_first_at doc r : find p doc = Some r -> first_at p r doc.
Proof.
  apply find_from_first_at. apply Forall_forall. intros n _. clear doc r.
  induction n as [name attrs contents IH|text] using node_forall_ind; [|done].
  intros name' attrs' contents' q [= -> -> ->] _.
  by apply find_from_first_at.
Qed.

Lemma first_at_find doc r : first_at p r doc -> find p doc = Some r.
Proof.
  unfold find. induction 1 as [n ns Hn|name attrs contents ns q Hp _ IH|n ns j q Hn _ IH].
  - by rewrite find_from_cons, find_in_self.
  - by rewrite find_from_cons, find_in_tag, Hp, IH.
  - by rewrite find_from_cons, Hn, find_from_shift, IH.
Qed.

(** *** Inserting an element *)

Lemma insert_at_later i q new n ns :
  insert_at (S i :: q) new (n :: ns) = n :: insert_at (i :: q) new ns.
Proof.
  destruct q as [|k q]; [done|].
  cbn [insert_at]. simpl. destruct (ns !! i) as [[name attrs contents|text]|]; done.
Qed.

Lemma insert_at_inside q new name attrs contents ns :
  q <> [] ->
  insert_at (0 :: q) new (Tag name attrs contents :: ns) =
  Tag name attrs (insert_at q new contents) :: ns.
Proof. by destruct q. Qed.

Lemma contents_at_later i q n ns :
  contents_at (S i :: q) (n :: ns) = contents_at (i :: q) ns.
Proof. reflexivity. Qed.

Lemma find_all_cons n ns :
  find_all p (n :: ns) = find_all_in p n ++ find_all p ns.
Proof. reflexivity. Qed.

Lemma find_all_in_tag name attrs contents :
  find_all_in p (Tag name attrs contents) =
  (if p (Tag name attrs contents) then [Tag name attrs contents] else [])
  ++ find_all p contents.
Proof. reflexivity. Qed.

(** Whether a tag matches does not depend on its contents. *)
Hypothesis p_contents : forall name attrs contents contents',
  p (Tag name attrs contents) = p (Tag name attrs contents').

(** A new matching element without contents, put where the first match
    was, becomes the first match, in front of all others. *)
Lemma insert_at_first new r doc :
  p new = true -> find_all_in p new = [new] ->
  first_at p r doc ->
  find_all p (insert_at r new doc) = new :: find_all p doc /\
  first_at p r (insert_at r new doc).
Proof.
  intros Hnew Hall.
  induction 1 as [n ns Hn|name attrs contents ns q Hp Hq IH|n ns j q Hn _ IH].
  - change (insert_at [0] new (n :: ns)) with (new :: n :: ns).
    rewrite (find_all_cons new), Hall. split; [done | by constructor].
  - rewrite insert_at_inside by by eapply first_at_nonempty.
    destruct IH as [IH1 IH2].
    rewrite !find_all_cons, !find_all_in_tag.
    rewrite (p_contents _ _ _ contents), Hp, IH1. split; [done|].
    constructor; [|done]. by rewrite (p_contents _ _ _ contents).
  - rewrite insert_at_later. destruct IH as [IH1 IH2].
    rewrite !find_all_cons, IH1, find_in_None by done. split; [done|].
    by constructor.
Qed.

End DocumentFacts.

Section AppendFacts.
Context (p pb : node -> bool).
Hypothesis p_contents : forall name attrs contents contents',
  p (Tag name attrs contents) = p (Tag name attrs contents').
Hypothesis pb_tag : forall text, pb (NavigableString text) = false.

Lemma find_all_app (ns ms : list node) :
  find_all p (ns ++ ms) = find_all p ns ++ find_all p ms.
Proof. unfold find_all. apply flat_map_app. Qed.

Lemma find_None_cons n ns :
  find p (n :: ns) = None -> find_in p n = None /\ find p ns = None.
Proof.
  unfold find. intros H%find_from_None. apply Forall_cons in H as [Hn Hns].
  split; [done | by apply find_from_None].
Qed.

Lemma first_at_end new ns :
  p new = true -> find p ns = None -> first_at p [length ns] (ns ++ [new]).
Proof.
  intros Hnew. induction ns as [|n ns IH]; intros Hnone.
  - by constructor.
  - apply find_None_cons in Hnone as [Hn Hns]. simpl. constructor; auto.
Qed.

(** A new matching element without contents, appended to a tag of a
    document without a match, is the only match. *)
Lemma append_to_first new b doc :
  p new = true -> find_all_in p new = [new] ->
  find p doc = None -> first_at pb b doc ->
  let r := b ++ [length (contents_at b doc)] in
  find_all p (insert_at r new doc) = [new] /\ first_at p r (insert_at r new doc).
Proof.
  intros Hnew Hall Hnone Hb. revert Hnone.
  induction Hb as [n ns Hn|name attrs contents ns q Hp Hq IH|n ns j q Hn _ IH];
    intros Hnone; apply find_None_cons in Hnone as [Hnone Hrest].
  - destruct n as [name attrs contents|text]; [|by rewrite pb_tag in Hn].
    assert (p (Tag name attrs contents) = false) as Hp.
    { destruct (p (Tag name attrs contents)) eqn:E; [|done].
      rewrite find_in_self in Hnone; done. }
    rewrite find_in_tag, Hp in Hnone.
    change (contents_at [0] (Tag name attrs contents :: ns)) with contents.
    cbn zeta.
    change (insert_at ([0] ++ [length contents]) new (Tag name attrs contents :: ns))
      with (Tag name attrs (take (length contents) contents ++
                            new :: drop (length contents) contents) :: ns).
    rewrite firstn_all, drop_all.
    rewrite find_all_cons, find_all_in_tag, find_all_app.
    rewrite (p_contents _ _ _ contents), Hp.
    rewrite (find_None_find_all _ contents), (find_None_find_all _ ns) by done.
    split.
    + change (find_all p [new]) with (find_all_in p new ++ []). by rewrite Hall.
    + constructor; [by rewrite (p_contents _ _ _ contents)|].
      by apply first_at_end.
  - assert (p (Tag name attrs contents) = false) as Hp'.
    { destruct (p (Tag name attrs contents)) eqn:E; [|done].
      rewrite find_in_self in Hnone; done. }
    rewrite find_in_tag, Hp' in Hnone. destruct (IH Hnone) as [IH1 IH2].
    change (contents_at (0 :: q) (Tag name attrs contents :: ns))
      with (contents_at q contents).
    cbn zeta. rewrite <- app_comm_cons, insert_at_inside by by destruct q.
    rewrite find_all_cons, find_all_in_tag.
    rewrite (p_contents _ _ _ contents), Hp', IH1.
    rewrite (find_None_find_all _ ns) by done.
    split; [done|]. constructor; [|done]. by rewrite (p_contents _ _ _ contents).
  - specialize (IH Hrest). cbn zeta in IH. rewrite <- app_comm_cons in IH.
    destruct IH as [IH1 IH2].
    cbn zeta. rewrite contents_at_later, <- app_comm_cons, insert_at_later.
    rewrite find_all_cons, IH1, find_in_None by done.
    split; [done|]. by constructor.
Qed.

End AppendFacts.

(** ** Script-tag injection *)

Section InjectionFacts.
Context (root_path boilerplate_dir : string).

Lemma tag_named_contents tag name attrs contents contents' :
  tag_named tag (Tag name attrs contents) = tag_named tag (Tag name attrs contents').
Proof. reflexivity. Qed.

Lemma inject_script_loop_cons state script_path rest :
  inject_script_loop root_path boilerplate_dir state (script_path :: rest) =
  match inject_script_tag root_path boilerplate_dir state script_path with
  | Ok state' => inject_script_loop root_path boilerplate_dir state' rest
  | Raise e => Raise e
  end.
Proof. reflexivity. Qed.

(** Once [first_script] is set, every turn of the loop puts its tag in
    front of all script elements. *)
Lemma inject_script_loop_first doc r paths :
  first_at (tag_named "script") r doc ->
  exists doc',
    inject_script_loop root_path boilerplate_dir (doc, Some r) paths
      = Ok (doc', Some r) /\
    script_elements doc' = reverse (injected root_path boilerplate_dir <$> paths) ++ script_elements doc.
Proof.
  revert doc. induction paths as [|script_path rest IH]; intros doc Hr.
  - by exists doc.
  - rewrite inject_script_loop_cons. cbn [inject_script_tag].
    destruct (insert_at_first (tag_named "script")
                (tag_named_contents "script") (injected root_path boilerplate_dir script_path) r doc)
      as [Hall Hfirst]; [done..|].
    destruct (IH _ Hfirst) as (doc' & Hloop & Hscripts).
    exists doc'. split; [done|].
    unfold script_elements in *. rewrite Hscripts, Hall.
    rewrite fmap_cons, reverse_cons, <- app_assoc. done.
Qed.

(** The injected tags come in the order of the required paths, in front
    of the script elements the document had, when the document has a
    script element or a body. *)
Lemma inject_script_tags_order doc required_js_paths :
  required_js_paths <> [] ->
  is_Some (find (tag_named "script") doc) \/ is_Some (find (tag_named "body") doc) ->
  exists doc',
    inject_script_tags doc required_js_paths root_path boilerplate_dir = Ok doc' /\
    script_elements doc' = (injected root_path boilerplate_dir <$> required_js_paths) ++ script_elements doc.
Proof.
  intros Hpaths Hdoc. unfold inject_script_tags.
  destruct required_js_paths as [|p0 ps0] eqn:Epaths; [done|]. rewrite <- Epaths. clear Epaths Hpaths.
  destruct (find (tag_named "script") doc) as [r|] eqn:Hscript.
  - apply find_first_at in Hscript.
    destruct (inject_script_loop_first doc r (reverse required_js_paths) Hscript)
      as (doc' & -> & Hscripts).
    exists doc'. split; [done|].
    by rewrite Hscripts, <- fmap_reverse, reverse_involutive.
  - destruct Hdoc as [[? [=]]|[body Hbody]].
    destruct (reverse required_js_paths) as [|script_path rest] eqn:Erev.
    { exists doc. split; [done|].
      apply (f_equal reverse) in Erev. rewrite reverse_involutive in Erev.
      by rewrite Erev. }
    rewrite inject_script_loop_cons. cbn [inject_script_tag]. rewrite Hbody.
    unfold append_to.
    destruct (append_to_first (tag_named "script") (tag_named "body")
                (tag_named_contents "script") (fun _ => eq_refl)
                (injected root_path boilerplate_dir script_path) body doc)
      as [Hall Hfirst]; [done | done | done | by apply find_first_at |].
    cbn zeta in Hall, Hfirst.
    destruct (inject_script_loop_first _ _ rest Hfirst) as (doc' & Hloop & Hscripts).
    exists doc'. split; [unfold injected in Hloop; by rewrite Hloop|].
    unfold script_elements in *. rewrite Hscripts, Hall.
    rewrite (find_None_find_all _ doc Hscript), app_nil_r.
    apply (f_equal reverse) in Erev. rewrite reverse_involutive in Erev.
    rewrite Erev, reverse_cons, fmap_app. simpl.
    by rewrite fmap_reverse.
Qed.

(** Without a script element and without a body the injection fails. *)
Lemma inject_script_tags_no_body doc required_js_paths :
  required_js_paths <> [] ->
  find (tag_named "script") doc = None ->
  find (tag_named "body") doc = None ->
  inject_script_tags doc required_js_paths root_path boilerplate_dir
    = Raise AttributeError.
Proof.
  intros Hpaths Hscript Hbody. unfold inject_script_tags.
  destruct required_js_paths as [|p0 ps0] eqn:Epaths; [done|]. rewrite <- Epaths.
  destruct (reverse required_js_paths) as [|script_path rest] eqn:Erev.
  { apply (f_equal reverse) in Erev. rewrite reverse_involutive in Erev.
    by rewrite Erev in Epaths. }
  rewrite Hscript, inject_script_loop_cons. cbn [inject_script_tag].
  by rewrite Hbody.
Qed.

End InjectionFacts.

(** ** Web manifest generation *)

Lemma mapM_result_cons {A B : Type} (f : A -> result B) (x : A) (l : list A) :
  mapM f (x :: l) =
  match f x with
  | Ok y => match mapM f l with Ok k => Ok (y :: k) | Raise e => Raise e end
  | Raise e => Raise e
  end.
Proof. reflexivity. Qed.

(** Iterating over a dictionary and looking every key up again yields its
    items. *)
Lemma icon_entries_dict (d : gmap string json) :
  icon_entries (JDict d) =
  Ok ((fun item => icon_entry item.2 item.1) <$> map_to_list d).
Proof.
  unfold icon_entries.
  assert (forall item, item ∈ map_to_list d -> d !! item.1 = Some item.2) as Hitems.
  { intros [k v] Hin. by apply elem_of_map_to_list. }
  induction (map_to_list d) as [|[k v] items IH]; [done|].
  rewrite fmap_cons, mapM_result_cons. unfold dict_getitem at 1. simpl.
  pose proof (Hitems (k, v) ltac:(by left)) as Hk. simpl in Hk. rewrite Hk. simpl.
  rewrite IH; [done|]. intros item Hin. apply Hitems. by right.
Qed.

(** C9: the web manifest is a function of the source manifest and the
    start URL alone; for a source manifest with a name (and icons, when it
    has any, that map sizes to paths) it takes its name from the source,
    its short name from the source or else the name, its language from
    the default locale or else ['en'], its start URL from the caller, one
    icon entry with [src] and [sizes] "NxN" for each item of the icons
    mapping, empty lists for [splash_screens] and
    [related_applications]; it has no other members than the twelve it
    sets, and a source member it does not read changes nothing. *)
Theorem generate_web_manifest_fields
    (manifest : gmap string json) (start_url : string)
    (name : json) (icons : gmap string json) :
  manifest !! "name" = Some name ->
  icons_of manifest = Some icons ->
  exists web_manifest,
    generate_web_manifest manifest start_url = Ok web_manifest /\
    web_manifest !! "name" = Some name /\
    web_manifest !! "short_name" = Some (default name (manifest !! "short_name")) /\
    web_manifest !! "lang" =
      Some (default (JStr "en") (manifest !! "default_locale")) /\
    web_manifest !! "start_url" = Some (JStr start_url) /\
    web_manifest !! "icons" =
      Some (JList ((fun item =>
                      JDict {[ "src" := item.2;
                               "sizes" := JStr (item.1 +:+ "x" +:+ item.1) ]})
                   <$> map_to_list icons)) /\
    web_manifest !! "splash_screens" = Some (JList []) /\
    web_manifest !! "related_applications" = Some (JList []) /\
    dom web_manifest = web_manifest_fields /\
    forall key value, key ∉ mapped_fields ->
      generate_web_manifest (<[key := value]> manifest) start_url = Ok web_manifest.
Proof.
  intros Hname Hicons.
  assert (match manifest !! "icons" with
          | Some icons => icon_entries icons
          | None => Ok []
          end = Ok ((fun item => icon_entry item.2 item.1) <$> map_to_list icons))
    as Hentries.
  { unfold icons_of in Hicons. destruct (manifest !! "icons") as [[]|]; simplify_eq.
    - apply icon_entries_dict.
    - by rewrite map_to_list_empty. }
  eexists. split; [|split_and!].
  - unfold generate_web_manifest, dict_getitem. rewrite Hname. simpl.
    rewrite Hentries. simpl. reflexivity.
  - by simplify_map_eq.
  - unfold dict_get. destruct (manifest !! "short_name"); by simplify_map_eq.
  - unfold dict_get. destruct (manifest !! "default_locale"); by simplify_map_eq.
  - by simplify_map_eq.
  - by simplify_map_eq.
  - by simplify_map_eq.
  - by simplify_map_eq.
  - rewrite !dom_insert_L, dom_empty_L. unfold web_manifest_fields. set_solver.
  - intros key value Hkey. unfold mapped_fields in Hkey.
    unfold generate_web_manifest, dict_getitem, dict_get.
    rewrite !lookup_insert_ne by set_solver.
    rewrite Hname. simpl. rewrite Hentries. simpl. reflexivity.
Qed.

(** ** Running the pipeline *)

Lemma bind_unfold {A B : Type} (m : M A) (k : A -> M B) (w : world) :
  (m ≫= k) w =
  match m w with
  | (w', Ok a) => k a w'
  | (w', Raise e) => (w', Raise e)
  end.
Proof. reflexivity. Qed.

Lemma bind_Ok {A B : Type} (m : M A) (k : A -> M B) (w w' : world) (b : B) :
  (m ≫= k) w = (w', Ok b) ->
  exists a w1, m w = (w1, Ok a) /\ k a w1 = (w', Ok b).
Proof.
  rewrite bind_unfold. destruct (m w) as [w1 [a|e]]; [eauto | done].
Qed.


Lemma setup_output_dir_run force w :
  setup_output_dir force w =
  if negb force && bool_decide (is_Some (output_dir w))
  then (w, Raise (OSError "Output directory already exists."))
  else match input_dir w with
       | Some t =>
           ({| input_dir := Some t; output_dir := Some t; log := log w |}, Ok ())
       | None =>
           ({| input_dir := None;
               output_dir := if force then None else output_dir w;
               log := log w |}, Raise (OSError EmptyString))
       end.
Proof.
  unfold setup_output_dir. rewrite bind_unfold. unfold get_world.
  destruct force; simpl.
  - rewrite bind_unfold. simpl. unfold copytree. rewrite bind_unfold. simpl.
    destruct (input_dir w); done.
  - destruct (output_dir w) as [t|] eqn:Hout; simpl.
    + rewrite bind_unfold. done.
    + rewrite bind_unfold. simpl. unfold copytree. rewrite bind_unfold. simpl.
      rewrite Hout. destruct w as [i o l]; simpl in *; subst. destruct i; done.
Qed.

Lemma logging_Ok lvl msg w w' u :
  logging lvl msg w = (w', Ok u) ->
  input_dir w' = input_dir w /\ output_dir w' = output_dir w /\
  log w' = log w ++ [(lvl, msg)].
Proof. by intros [= <- _]. Qed.

Lemma in_output_dir_Ok {A} (op : tree -> tree * result A) w w' a :
  in_output_dir op w = (w', Ok a) ->
  exists t t', output_dir w = Some t /\ op t = (t', Ok a) /\
    output_dir w' = Some t' /\ input_dir w' = input_dir w /\ log w' = log w.
Proof.
  unfold in_output_dir. destruct (output_dir w) as [t|]; [|done].
  destruct (op _) as [t' r] eqn:Hop. intros [= <- ->]. by exists t, t'.
Qed.

Lemma in_input_dir_Ok {A} (op : tree -> result A) w w' a :
  in_input_dir op w = (w', Ok a) ->
  exists t, input_dir w = Some t /\ op t = Ok a /\ w' = w.
Proof.
  unfold in_input_dir. destruct (input_dir w) as [t|]; [|done].
  intros [= <- Hop]. by exists t.
Qed.

Lemma lift_Ok {A} (r : result A) w w' a :
  lift r w = (w', Ok a) -> w' = w /\ r = Ok a.
Proof. by intros [= <- Hr]. Qed.


Lemma bind_world {A B} (m : M A) (k : A -> M B) :
  (forall w, (m w).1 = w) -> (forall a w, (k a w).1 = w) ->
  forall w, ((m ≫= k) w).1 = w.
Proof.
  intros Hm Hk w. rewrite bind_unfold. specialize (Hm w).
  destruct (m w) as [w' [a|e]]; simpl in *; subst; [apply Hk | done].
Qed.

Lemma in_input_dir_world {A} (op : tree -> result A) w : (in_input_dir op w).1 = w.
Proof. unfold in_input_dir. by destruct (input_dir w). Qed.

Lemma try_manifest_Ok (c : collaborators) (w w' : world) (m : gmap string json) :
  try_except
    (manifest ← in_input_dir (manifest_get c);
     manifest ← in_input_dir (manifest_localize c manifest);
     _ ← lift (manifest_verify c manifest);
     mret (Some manifest))
    is_ValueError
    (fun e => _ ← logging ERROR (message e); mret None) w = (w', Ok (Some m)) ->
  w' = w.
Proof.
  unfold try_except.
  match goal with |- context [match ?body w with _ => _ end] =>
    assert ((body w).1 = w) as Hbody; [|destruct (body w) as [w0 [a|e]]]
  end.
  { apply bind_world; [apply in_input_dir_world|]. intros m0.
    apply bind_world; [apply in_input_dir_world|]. intros m1.
    apply bind_world; [done|]. done. }
  - simpl in Hbody. by intros [= <- _].
  - destruct (is_ValueError e); [|done]. rewrite bind_unfold. done.
Qed.

(** What a completed staging has done. *)
Lemma convert_app_stage_Some c cfg force w w1 cv :
  convert_app_stage c cfg force w = (w1, Ok (Some cv)) ->
  exists t0 t1 web_manifest t_clean t_edit,
    let apis := app_apis c t0 in
    input_dir w = Some t0 /\
    input_dir w1 = Some t0 /\
    output_dir w1 = Some t1 /\
    polyfill_manifests cv =
      load_many c (filter (fun api => api ∈ POLYFILLS) apis) /\
    not_polyfillable cv = filter (fun api => api ∉ POLYFILLS) apis /\
    dependencies cv =
      flat_map pm_dependencies (map_to_list (polyfill_manifests cv)).*2 /\
    mapM dependency_path (dependencies cv) = Ok (required_dependency_paths cv) /\
    required_polyfill_paths cv =
      polyfill_paths (filter (fun api => api ∈ POLYFILLS) apis) /\
    generate_web_manifest (chrome_app_manifest cv) (start_url cfg)
      = Ok web_manifest /\
    cleanup_output_dir c
      (add_app_info c (chrome_app_manifest cv)
         (write_file WEB_MANIFEST_FILENAME (json_dumps c 4 (JDict web_manifest)) t0))
      = Ok t_clean /\
    edit_code c
      (["caterpillar.js"; REGISTER_SCRIPT_NAME] ++ [path_join ".." INFO_SCRIPT_NAME] ++
       required_dependency_paths cv ++ required_polyfill_paths cv)
      (chrome_app_manifest cv) cfg t_clean = (t_edit, Ok ()) /\
    copy_static_code c
      (["caterpillar.js"; REGISTER_SCRIPT_NAME; SW_STATIC_SCRIPT_NAME] ++
       required_polyfill_paths cv)
      (boilerplate_dir cfg) t_edit = (t1, Ok ()).
Proof.
  unfold convert_app_stage. intros H.
  apply bind_Ok in H as (staged & w0 & Hsetup & H).
  destruct staged; [|done]. cbn [negb] in H.
  assert (exists t0, input_dir w = Some t0 /\ input_dir w0 = Some t0 /\
                     output_dir w0 = Some t0) as (t0 & Hin & Hin0 & Hout0).
  { unfold try_except in Hsetup. rewrite bind_unfold, setup_output_dir_run in Hsetup.
    destruct (negb force && bool_decide (is_Some (output_dir w))); [done|].
    destruct (input_dir w) as [t0|]; [|done].
    injection Hsetup as <-. by exists t0. }
  clear Hsetup.
  apply bind_Ok in H as (apis & w' & Hapis & H).
  apply in_output_dir_Ok in Hapis as (t & t' & Ht & Hop & Hout & Hinp & _).
  rewrite Hout0 in Ht. injection Ht as <-. injection Hop as <- <-.
  rewrite Hin0 in Hinp.
  apply bind_Ok in H as ([] & w2 & Hlog1 & H).
  assert (input_dir w2 = Some t0 /\ output_dir w2 = Some t0) as [Hin2 Hout2].
  { destruct (app_apis c t0); [by injection Hlog1 as <-|].
    apply logging_Ok in Hlog1 as (-> & -> & _). by rewrite Hinp. }
  clear Hlog1.
  apply bind_Ok in H as ([] & w3 & (Hin3 & Hout3 & _)%logging_Ok & H).
  apply bind_Ok in H as ([] & w4 & (Hin4 & Hout4 & _)%logging_Ok & H).
  apply bind_Ok in H as (paths & w5 & [-> Hpaths]%lift_Ok & H).
  apply bind_Ok in H as (checked & w6 & Hchecked & H).
  destruct checked as [m|]; [|done].
  apply try_manifest_Ok in Hchecked as ->.
  apply bind_Ok in H as ([] & w7 & (Hin7 & Hout7 & _)%logging_Ok & H).
  apply bind_Ok in H as (web_manifest & w8 & [-> Hweb]%lift_Ok & H).
  rewrite Hin4, Hin3, Hin2 in Hin7. rewrite Hout4, Hout3, Hout2 in Hout7.
  apply bind_Ok in H as ([] & w9 & Hw9 & H).
  apply in_output_dir_Ok in Hw9 as (t & t' & Ht & Hop & Hout9 & Hin9 & _).
  rewrite Hout7 in Ht. injection Ht as <-. injection Hop as <-.
  apply bind_Ok in H as ([] & w10 & Hw10 & H).
  apply in_output_dir_Ok in Hw10 as (t & t' & Ht & Hop & Hout10 & Hin10 & _).
  rewrite Hout9 in Ht. injection Ht as <-. injection Hop as <-.
  apply bind_Ok in H as ([] & w11 & Hw11 & H).
  apply in_output_dir_Ok in Hw11 as (t & t_clean & Ht & Hop & Hout11 & Hin11 & _).
  rewrite Hout10 in Ht. injection Ht as <-.
  unfold updating in Hop.
  destruct (cleanup_output_dir c _) as [t_clean'|] eqn:Hclean; [|done].
  injection Hop as ->.
  apply bind_Ok in H as ([] & w12 & Hw12 & H).
  apply in_output_dir_Ok in Hw12 as (t & t_edit & Ht & Hedit & Hout12 & Hin12 & _).
  rewrite Hout11 in Ht. injection Ht as <-.
  apply bind_Ok in H as ([] & w13 & Hw13 & H).
  apply in_output_dir_Ok in Hw13 as (t & t1 & Ht & Hcopy & Hout13 & Hin13 & _).
  rewrite Hout12 in Ht. injection Ht as <-.
  injection H as <- <-. simpl.
  exists t0, t1, web_manifest, t_clean, t_edit.
  split_and!; try done.
  congruence.
Qed.

(** *** Installing *)

Lemma dependency_path_Ok dep path :
  dependency_path dep = Ok path -> recognized dep.
Proof.
  unfold dependency_path, dict_getitem, DEPENDENCY_MANAGER_INSTALL_FOLDER, recognized.
  destruct (_ !! dep_manager dep) as [folder|] eqn:E; [|done]. intros _.
  apply lookup_insert_Some in E as [[? _]|[_ E]]; [by left|].
  apply lookup_singleton_Some in E as [? _]. by right.
Qed.

Lemma mapM_Ok_Forall {A B} (f : A -> result B) l k :
  mapM f l = Ok k -> Forall (fun x => exists y, f x = Ok y) l.
Proof.
  revert k. induction l as [|x l IH]; intros k; [constructor|].
  rewrite mapM_result_cons. destruct (f x) as [y|] eqn:E; [|done].
  destruct (mapM f l) as [k'|]; [|done]. intros _. constructor; eauto.
Qed.

Lemma install_dependency_run c call t :
  install_dependency c call t =
  (cp_tree (popen c call t),
   if bool_decide (cp_stdout (popen c call t) = EmptyString)
   then Raise (InstallationError
                 ("Failed to install with command: `" +:+ str_join " " call +:+ "`."))
   else Ok ()).
Proof. unfold install_dependency. by case_bool_decide. Qed.

(** A dependency on a recognised manager is installed in the output
    directory; without output of the manager a warning is logged, and the
    loop goes on. *)
Lemma install_one_run c dep w t :
  recognized dep -> output_dir w = Some t ->
  let p := popen c [dep_manager dep; "install"; dep_name dep] t in
  install_one c dep w =
  ({| input_dir := input_dir w; output_dir := Some (cp_tree p);
      log := log w ++ if bool_decide (cp_stdout p = EmptyString)
                      then [install_warning dep] else [] |}, Ok ()).
Proof.
  intros Hdep Hout. unfold install_one, try_except.
  assert (forall manager, dep_manager dep = manager ->
    in_output_dir (install_dependency c [manager; "install"; dep_name dep]) w =
    ({| input_dir := input_dir w;
        output_dir := Some (cp_tree (popen c [dep_manager dep; "install"; dep_name dep] t));
        log := log w |},
     if bool_decide (cp_stdout (popen c [dep_manager dep; "install"; dep_name dep] t)
                     = EmptyString)
     then Raise (InstallationError
                   ("Failed to install with command: `" +:+
                    str_join " " [manager; "install"; dep_name dep] +:+ "`."))
     else Ok ())) as Hrun.
  { intros manager <-. unfold in_output_dir. rewrite Hout.
    by rewrite install_dependency_run. }
  destruct (String.eqb (dep_manager dep) "bower") eqn:Eb;
    [|destruct (String.eqb (dep_manager dep) "npm") eqn:En].
  - apply String.eqb_eq in Eb. rewrite (Hrun _ Eb).
    cbn zeta. case_bool_decide; simpl; [done|]. by rewrite app_nil_r.
  - apply String.eqb_eq in En. rewrite (Hrun _ En).
    cbn zeta. case_bool_decide; simpl; [done|]. by rewrite app_nil_r.
  - apply String.eqb_neq in Eb, En. by destruct Hdep.
Qed.

Lemma install_dependencies_run c deps :
  Forall recognized deps -> forall w t,
  output_dir w = Some t ->
  exists w2 t2,
    install_dependencies c deps w = (w2, Ok ()) /\
    output_dir w2 = Some t2 /\ input_dir w2 = input_dir w /\
    (forall entry, entry ∈ log w -> entry ∈ log w2) /\
    (forall dep, dep ∈ deps ->
       (forall t', cp_stdout (popen c [dep_manager dep; "install"; dep_name dep] t')
                   = EmptyString) ->
       install_warning dep ∈ log w2).
Proof.
  induction 1 as [|dep deps Hdep _ IH]; intros w t Hout.
  - exists w, t. split_and!; try done. intros dep Hin. by apply elem_of_nil in Hin.
  - cbn [install_dependencies]. rewrite bind_unfold.
    rewrite (install_one_run c dep w t Hdep Hout). cbn zeta.
    set (w1 := {| input_dir := _ |}).
    destruct (IH w1 _ eq_refl) as (w2 & t2 & Hrun & Hout2 & Hin2 & Hlog & Hwarn).
    exists w2, t2. split_and!; try done.
    + intros entry Hentry. apply Hlog. simpl. apply elem_of_app. by left.
    + intros dep' [->|Hin]%elem_of_cons Hsilent.
      * apply Hlog. simpl. rewrite bool_decide_eq_true_2 by apply Hsilent.
        apply elem_of_app. right. by left.
      * by apply Hwarn.
Qed.

(** *** The cached files *)

Lemma all_filepaths_spec (t : tree) :
  Sorted String.le (all_filepaths t) /\
  NoDup (all_filepaths t) /\
  forall path, path ∈ all_filepaths t <-> is_Some (t !! path).
Proof.
  unfold all_filepaths, walk. split_and!.
  - apply Sorted_merge_sort, _.
  - rewrite merge_sort_Permutation. apply NoDup_fst_map_to_list.
  - intros path. rewrite merge_sort_Permutation, list_elem_of_fmap. split.
    + intros [[k v] [-> Hin%elem_of_map_to_list]]. by exists v.
    + intros [v Hv]. exists (path, v). split; [done|]. by apply elem_of_map_to_list.
Qed.

Lemma path_join_length (a b : string) :
  String.length b <= String.length (path_join a b).
Proof.
  unfold path_join. destruct (String.prefix "/" b); [done|].
  destruct (_ || _); rewrite !length_app_string; lia.
Qed.

Lemma path_join_not_sw_script (directory script : string) :
  5 < String.length script -> path_join directory script <> SW_SCRIPT_NAME.
Proof.
  intros Hlen Heq. pose proof (path_join_length directory script) as Hle.
  rewrite Heq in Hle. simpl in Hle. lia.
Qed.

Lemma copy_script_run c script directory t content :
  caterpillar_js c !! script = Some content ->
  copy_script c script directory t = Ok (<[path_join directory script := content]> t).
Proof. intros H. unfold copy_script, copyfile. by rewrite H. Qed.

Lemma copy_static_code_Ok c paths directory t t' :
  copy_static_code c paths directory t = (t', Ok ()) ->
  Forall (fun path => is_Some (caterpillar_js c !! path)) paths.
Proof.
  revert t. induction paths as [|path paths IH]; intros t; [constructor|].
  cbn [copy_static_code]. unfold copyfile.
  destruct (caterpillar_js c !! path) as [content|] eqn:E; [|done].
  intros H. constructor; [done | by eapply IH].
Qed.

Lemma add_service_worker_run c manifest required_js_paths directory t
    register static scripts :
  caterpillar_js c !! REGISTER_SCRIPT_NAME = Some register ->
  caterpillar_js c !! SW_STATIC_SCRIPT_NAME = Some static ->
  background_scripts manifest = Ok scripts ->
  let snapshot :=
    <[path_join directory SW_STATIC_SCRIPT_NAME := static]>
      (<[path_join directory REGISTER_SCRIPT_NAME := register]> t) in
  add_service_worker c manifest required_js_paths directory t =
  (write_file SW_SCRIPT_NAME
     (service_worker_text c snapshot required_js_paths scripts directory) snapshot,
   Ok ()).
Proof.
  intros Hreg Hstatic Hscripts. unfold add_service_worker.
  rewrite (copy_script_run _ _ _ _ _ Hreg), (copy_script_run _ _ _ _ _ Hstatic).
  unfold generate_service_worker. rewrite Hscripts. done.
Qed.

(** *** From staging to the report *)

Lemma convert_app_staged c cfg force w w1 cv :
  convert_app_stage c cfg force w = (w1, Ok (Some cv)) ->
  exists w2 t1 t2,
    output_dir w1 = Some t1 /\
    install_dependencies c (dependencies cv) w1 = (w2, Ok ()) /\
    output_dir w2 = Some t2 /\
    (forall dep, dep ∈ dependencies cv ->
       (forall t', cp_stdout (popen c [dep_manager dep; "install"; dep_name dep] t')
                   = EmptyString) ->
       install_warning dep ∈ log w2) /\
    is_Some (caterpillar_js c !! REGISTER_SCRIPT_NAME) /\
    is_Some (caterpillar_js c !! SW_STATIC_SCRIPT_NAME) /\
    convert_app c cfg force w = convert_app_finish c cfg cv w2.
Proof.
  intros Hstage.
  destruct (convert_app_stage_Some _ _ _ _ _ _ Hstage)
    as (t0 & t1 & wm & tc & te & _ & _ & Hout1 & _ & _ & _ & Hpaths & _ & _ & _ & _ & Hcopy).
  apply copy_static_code_Ok in Hcopy.
  assert (Forall recognized (dependencies cv)) as Hdeps.
  { apply mapM_Ok_Forall in Hpaths. eapply Forall_impl; [done|].
    intros dep [path Hpath]. by eapply dependency_path_Ok. }
  destruct (install_dependencies_run c _ Hdeps w1 t1 Hout1)
    as (w2 & t2 & Hrun & Hout2 & _ & _ & Hwarn).
  exists w2, t1, t2. split_and!; try done.
  - rewrite Forall_forall in Hcopy. apply Hcopy. set_solver.
  - rewrite Forall_forall in Hcopy. apply Hcopy. set_solver.
  - unfold convert_app. rewrite bind_unfold, Hstage.
    unfold try_except. rewrite !bind_unfold, Hrun. done.
Qed.


(** C7: when the output directory exists and overwriting is not forced,
    the conversion logs the error and returns at once: the input
    directory and the output directory are what they were, no file has
    been copied. *)
Theorem convert_app_existing_output
    (c : collaborators) (cfg : config) (w : world) (t : tree) :
  output_dir w = Some t ->
  convert_app c cfg false w =
    ({| input_dir := input_dir w; output_dir := Some t;
        log := log w ++ [(ERROR, "Output directory already exists.")] |},
     Ok None).
Proof.
  intros Hout. unfold convert_app, convert_app_stage, setup_output_dir.
  rewrite !bind_unfold. unfold try_except. rewrite !bind_unfold.
  unfold get_world. rewrite Hout. simpl. by rewrite Hout.
Qed.

(** ** The claims about the pipeline *)


(** *** Status *)

Lemma status_loop_total items :
  status_loop items = "total" <->
  Forall (fun item => pm_status item.2 = "total" \/ exempt item.1) items.
Proof.
  induction items as [|[api m] items IH]; [by split; [constructor|]|].
  cbn [status_loop]. rewrite Forall_cons, <- IH. simpl. unfold exempt.
  destruct (String.eqb (pm_status m) "total") eqn:E.
  - apply String.eqb_eq in E. simpl. naive_solver.
  - apply String.eqb_neq in E. simpl. case_bool_decide; simpl; [naive_solver|].
    split; [done | naive_solver].
Qed.

Lemma status_loop_partial items :
  status_loop items <> "total" -> status_loop items = "partial".
Proof.
  induction items as [|[api m] items IH]; [done|].
  cbn [status_loop]. by destruct (_ && _).
Qed.

Lemma with_defaults_lookup manifests apis api :
  with_defaults manifests apis !! api =
  if bool_decide (api ∈ apis) then Some (default_manifest api) else manifests !! api.
Proof.
  unfold with_defaults. revert manifests.
  induction apis as [|a apis IH]; intros manifests; [done|].
  cbn [foldl]. rewrite IH. destruct (decide (a = api)) as [->|Hne].
  - rewrite lookup_insert_eq, (bool_decide_eq_true_2 (api ∈ api :: apis)) by by left.
    by case_bool_decide.
  - rewrite lookup_insert_ne by done.
    case_bool_decide as H1; case_bool_decide as H2; try done.
    + exfalso. apply H2. by right.
    + apply elem_of_cons in H2 as [?|?]; done.
Qed.

Lemma load_many_lookup c apis api :
  load_many c apis !! api =
  if bool_decide (api ∈ apis) then Some (polyfill_registry c api) else None.
Proof.
  unfold load_many. induction apis as [|a apis IH]; [done|].
  rewrite fmap_cons. cbn [list_to_map foldr]. destruct (decide (a = api)) as [->|Hne].
  - rewrite lookup_insert_eq. rewrite bool_decide_eq_true_2; [done | by left].
  - rewrite lookup_insert_ne, IH by done.
    case_bool_decide as H1; case_bool_decide as H2; try done.
    + exfalso. apply H2. by right.
    + apply elem_of_cons in H2 as [?|?]; done.
Qed.

(** Every detected API has its descriptor, and no other API has one. *)
Lemma resolved_lookup c apis api :
  with_defaults (load_many c (filter (fun api => api ∈ POLYFILLS) apis))
                (filter (fun api => api ∉ POLYFILLS) apis) !! api =
  if bool_decide (api ∈ apis) then Some (descriptor c api) else None.
Proof.
  rewrite with_defaults_lookup, load_many_lookup. unfold descriptor.
  repeat case_bool_decide; try done; rewrite ?list_elem_of_filter in *; naive_solver.
Qed.

Lemma conversion_status_total c apis :
  conversion_status (resolved c apis) = "total" <->
  forall api, api ∈ apis -> ~ exempt api -> pm_status (descriptor c api) = "total".
Proof.
  unfold conversion_status. rewrite status_loop_total, Forall_forall. split.
  - intros H api Hapi Hexempt.
    destruct (H (api, descriptor c api)) as [?|?]; [|done..].
    apply elem_of_map_to_list. unfold resolved.
    by rewrite resolved_lookup, bool_decide_eq_true_2.
  - intros H [api m] Hin%elem_of_map_to_list. unfold resolved in Hin.
    rewrite resolved_lookup in Hin. case_bool_decide; [|done].
    injection Hin as <-. simpl. destruct (decide (exempt api)); [by right|].
    left. by apply H.
Qed.

Lemma convert_app_Some c cfg force w w' status :
  convert_app c cfg force w = (w', Ok (Some status)) ->
  exists w1 cv w2,
    convert_app_stage c cfg force w = (w1, Ok (Some cv)) /\
    convert_app_finish c cfg cv w2 = (w', Ok (Some status)) /\
    status = conversion_status
               (with_defaults (polyfill_manifests cv) (not_polyfillable cv)).
Proof.
  intros Hrun. pose proof Hrun as Hrun'. unfold convert_app in Hrun'.
  apply bind_Ok in Hrun' as ([cv|] & w1 & Hstage & _).
  2:{ unfold convert_app in Hrun. by rewrite bind_unfold, Hstage in Hrun. }
  destruct (convert_app_staged _ _ _ _ _ _ Hstage)
    as (w2 & t1 & t2 & _ & _ & _ & _ & _ & _ & Heq).
  rewrite Heq in Hrun. exists w1, cv, w2. split_and!; [done..|].
  unfold convert_app_finish in Hrun.
  repeat (apply bind_Ok in Hrun as (? & ? & _ & Hrun)).
  by injection Hrun as _ <-.
Qed.

(** C4: a completed conversion has status total exactly when every
    detected API outside [app.window] and [app.runtime] has a descriptor
    with status total, and partial otherwise; the two exempted APIs have
    the default descriptor, with status none, and do not count. *)
Theorem conversion_status_classification
    (c : collaborators) (cfg : config) (force : bool) (w w' : world)
    (status : string) :
  convert_app c cfg force w = (w', Ok (Some status)) ->
  exists t,
    input_dir w = Some t /\
    let apis := app_apis c t in
    status = conversion_status (resolved c apis) /\
    (forall api, api ∈ apis -> resolved c apis !! api = Some (descriptor c api)) /\
    (status = "total" <->
     forall api, api ∈ apis -> ~ exempt api ->
       pm_status (descriptor c api) = "total") /\
    (status <> "total" -> status = "partial") /\
    (forall api, exempt api ->
       descriptor c api = default_manifest api /\
       pm_status (descriptor c api) = "none").
Proof.
  intros (w1 & cv & w2 & Hstage & _ & ->)%convert_app_Some.
  destruct (convert_app_stage_Some _ _ _ _ _ _ Hstage)
    as (t0 & t1 & wm & tc & te & Hin & _ & _ & -> & -> & _).
  exists t0. split; [done|]. cbn zeta. fold (resolved c (app_apis c t0)).
  split_and!.
  - done.
  - intros api Hapi. unfold resolved.
    by rewrite resolved_lookup, bool_decide_eq_true_2.
  - apply conversion_status_total.
  - apply status_loop_partial.
  - intros api Hexempt. unfold descriptor, exempt in *.
    rewrite bool_decide_eq_false_2; [done|].
    unfold POLYFILLS. set_solver.
Qed.


(** C6 (as amended): the removal deletes the Chrome App manifest when the
    file is there and raises [OSError] when it is not; [convert_app] does
    not catch it, so a conversion that completed had the file to remove
    (copied from the input, or written under that very name). *)
Theorem cleanup_output_dir_removes (c : collaborators) (t : tree) :
  (is_Some (t !! CHROME_APP_MANIFEST_FILENAME c) ->
   cleanup_output_dir c t = Ok (delete (CHROME_APP_MANIFEST_FILENAME c) t)) /\
  (t !! CHROME_APP_MANIFEST_FILENAME c = None ->
   cleanup_output_dir c t = Raise (OSError EmptyString)) /\
  (forall cfg force w w' status,
     convert_app c cfg force w = (w', Ok (Some status)) ->
     exists t0, input_dir w = Some t0 /\
       (is_Some (t0 !! CHROME_APP_MANIFEST_FILENAME c) \/
        CHROME_APP_MANIFEST_FILENAME c = WEB_MANIFEST_FILENAME \/
        CHROME_APP_MANIFEST_FILENAME c = INFO_SCRIPT_NAME)).
Proof.
  unfold cleanup_output_dir, os_remove. split_and!.
  - by intros [content ->].
  - by intros ->.
  - intros cfg force w w' status (w1 & cv & w2 & Hstage & _ & _)%convert_app_Some.
    destruct (convert_app_stage_Some _ _ _ _ _ _ Hstage)
      as (t0 & t1 & wm & tc & te & Hin & _ & _ & _ & _ & _ & _ & _ & _ & Hclean & _).
    exists t0. split; [done|].
    unfold cleanup_output_dir, os_remove, add_app_info, write_file in Hclean.
    destruct (_ !! CHROME_APP_MANIFEST_FILENAME c) as [content|] eqn:E; [|done].
    rewrite !lookup_insert in E. repeat case_decide; eauto.
Qed.

Lemma add_service_worker_Ok c manifest required_js_paths directory t t' :
  add_service_worker c manifest required_js_paths directory t = (t', Ok ()) ->
  exists register static scripts,
    caterpillar_js c !! REGISTER_SCRIPT_NAME = Some register /\
    caterpillar_js c !! SW_STATIC_SCRIPT_NAME = Some static /\
    background_scripts manifest = Ok scripts.
Proof.
  unfold add_service_worker, copy_script, copyfile, generate_service_worker.
  destruct (caterpillar_js c !! REGISTER_SCRIPT_NAME) as [register|]; [|done].
  destruct (caterpillar_js c !! SW_STATIC_SCRIPT_NAME) as [static|]; [|done].
  destruct (background_scripts manifest) as [scripts|]; [|done].
  intros _. by exists register, static, scripts.
Qed.

(** C10 (as amended): the service worker is written after the tree has
    been walked, over a file of its name if there is one; the list of
    cached files it embeds contains [sw.js] exactly when a file of that
    name was in the tree before the service worker was added. *)
Theorem service_worker_lists_itself_iff
    (c : collaborators) (manifest : gmap string json)
    (required_js_paths : list string) (directory : string) (t t' : tree) :
  add_service_worker c manifest required_js_paths directory t = (t', Ok ()) ->
  exists snapshot scripts,
    t' = write_file SW_SCRIPT_NAME
           (service_worker_text c snapshot required_js_paths scripts directory)
           snapshot /\
    (SW_SCRIPT_NAME ∈ all_filepaths snapshot <-> is_Some (t !! SW_SCRIPT_NAME)).
Proof.
  intros Hrun.
  destruct (add_service_worker_Ok _ _ _ _ _ _ Hrun)
    as (register & static & scripts & Hreg & Hstatic & Hscripts).
  rewrite (add_service_worker_run _ _ _ _ _ _ _ _ Hreg Hstatic Hscripts) in Hrun.
  cbn zeta in Hrun. injection Hrun as <-.
  eexists _, scripts. split; [done|].
  etrans; [apply all_filepaths_spec|].
  rewrite !lookup_insert_ne; [done|..].
  - apply path_join_not_sw_script. simpl. lia.
  - apply path_join_not_sw_script. simpl. lia.
Qed.

(** *** An unknown manager *)

Lemma dependency_path_unrecognized dep :
  ~ recognized dep -> dependency_path dep = Raise (KeyError (dep_manager dep)).
Proof.
  intros Hdep. unfold dependency_path, dict_getitem, DEPENDENCY_MANAGER_INSTALL_FOLDER.
  destruct (_ !! dep_manager dep) as [folder|] eqn:E; [|done].
  exfalso. apply Hdep. unfold recognized.
  apply lookup_insert_Some in E as [[? _]|[_ E]]; [by left|].
  apply lookup_singleton_Some in E as [? _]. by right.
Qed.

Lemma mapM_dependency_path_unrecognized deps :
  Exists (fun dep => ~ recognized dep) deps ->
  exists dep, dep ∈ deps /\ ~ recognized dep /\
    mapM dependency_path deps = Raise (KeyError (dep_manager dep)).
Proof.
  induction deps as [|dep deps IH]; intros Hex; [by apply Exists_nil in Hex|].
  rewrite mapM_result_cons.
  destruct (dependency_path dep) as [path|e] eqn:Hpath.
  - apply Exists_cons in Hex as [Hdep|Hex].
    { by rewrite dependency_path_unrecognized in Hpath. }
    destruct (IH Hex) as (dep' & Hin & Hdep' & ->).
    exists dep'. split_and!; [by right | done..].
  - destruct (decide (recognized dep)) as [Hdep|Hdep].
    + exfalso. unfold dependency_path, dict_getitem, DEPENDENCY_MANAGER_INSTALL_FOLDER in Hpath.
      destruct Hdep as [Hm|Hm]; rewrite Hm in Hpath; done.
    + rewrite dependency_path_unrecognized in Hpath by done. injection Hpath as <-.
      exists dep. split_and!; [by left | done..].
Qed.

(** C8 in general: as soon as one dependency of the polyfills names a
    manager other than the two known ones, the conversion ends in an
    uncaught [KeyError] with the tree only staged, and logs no error. *)
Lemma convert_app_unrecognized_manager c cfg force w t :
  input_dir w = Some t ->
  force = true \/ output_dir w = None ->
  Exists (fun dep => ~ recognized dep) (dependencies_of c t) ->
  exists w' dep,
    dep ∈ dependencies_of c t /\ ~ recognized dep /\
    convert_app c cfg force w = (w', Raise (KeyError (dep_manager dep))) /\
    output_dir w' = Some t /\
    forall msg, (ERROR, msg) ∈ log w' -> (ERROR, msg) ∈ log w.
Proof.
  intros Hin Hout Hex.
  destruct (mapM_dependency_path_unrecognized _ Hex) as (dep & Hdep & Hnot & Hpaths).
  unfold dependencies_of in Hpaths.
  assert (negb force && bool_decide (is_Some (output_dir w)) = false) as Hfresh.
  { destruct Hout as [->| ->]; [done|].
    rewrite bool_decide_eq_false_2; [by destruct force|]. by intros [? ?]. }
  destruct (app_apis c t) as [|api apis] eqn:Hapis;
    eexists _, dep; (split; [done|]); (split; [done|]);
    unfold convert_app, convert_app_stage;
    rewrite !bind_unfold; unfold try_except;
    rewrite bind_unfold, setup_output_dir_run, Hin, Hfresh;
    cbn -[load_many POLYFILLS filter];
    rewrite !bind_unfold; cbn -[load_many POLYFILLS filter];
    rewrite Hapis; cbn -[load_many POLYFILLS filter]; rewrite Hpaths;
    repeat (rewrite bind_unfold; cbn [mret M_ret logging lift]);
    (split; [reflexivity|]); cbn [input_dir output_dir log];
    (split; [done|]); intros msg Hmsg; set_solver.
Qed.

(** ** The claims on a sample conversion *)



(** C1, refuted as stated: a second run over the output of the first
    annotates the call site again. *)
Lemma insert_todos_not_idempotent :
  insert_todos Sample.lexical_matcher Sample.call_site =
    "// TODO(Caterpillar): Check usage of tts.speak." +:+ newline_lf +:+
    Sample.call_site /\
  insert_todos Sample.lexical_matcher
    (insert_todos Sample.lexical_matcher Sample.call_site) =
    "// TODO(Caterpillar): Check usage of tts.speak." +:+ newline_lf +:+
    "// TODO(Caterpillar): Check usage of tts.speak." +:+ newline_lf +:+
    Sample.call_site /\
  insert_todos Sample.lexical_matcher
    (insert_todos Sample.lexical_matcher Sample.call_site) <>
  insert_todos Sample.lexical_matcher Sample.call_site.
Proof. split_and!; [reflexivity | reflexivity | discriminate]. Qed.


(** C2 on the documented example: with [x.js] and [a/y.js] in the app
    and [z.js] added by the installation, all three files are in the tree
    after the installation and in the list of cached files of the
    service worker, which walks that tree with its two scripts copied. *)
Lemma cached_files_example :
  all_filepaths <$>
    output_dir
      (install_dependencies Sample.demo (dependencies Sample.staged)
         Sample.staged_world).1 = Some (all_filepaths Sample.installed) /\
  all_filepaths
    (<["caterpillar/sw_static.js" := "// static"]>
       (<["caterpillar/register_sw.js" := "// register"]> Sample.installed)) =
    ["a/y.js"; "app.info.js"; "caterpillar/caterpillar.js";
     "caterpillar/polyfills/tts.polyfill.js"; "caterpillar/register_sw.js";
     "caterpillar/sw_static.js"; "manifest.webmanifest"; "x.js"; "z.js"].
Proof. split; vm_compute; reflexivity. Qed.

(** C3 on the documented example: for the required paths [a, b, c] and a
    page with one script element [S], the script elements end up in the
    order [a, b, c, S]. *)
Lemma inject_script_tags_example :
  script_elements <$>
    inject_script_tags Sample.page ["a.js"; "b.js"; "c.js"] "." "caterpillar" =
  Ok [new_script_tag "./caterpillar/a.js"; new_script_tag "./caterpillar/b.js";
      new_script_tag "./caterpillar/c.js"; Tag "script" [("src", JStr "S.js")] []].
Proof. reflexivity. Qed.

(** C3, where the code fails: a document that has neither a script
    element nor a body gets no script tag at all, the injection raises
    [AttributeError]. *)
Theorem inject_script_tags_fragment :
  find (tag_named "script") Sample.fragment = None /\
  find (tag_named "body") Sample.fragment = None /\
  inject_script_tags Sample.fragment ["a.js"] "." "caterpillar"
    = Raise AttributeError.
Proof. split_and!; reflexivity. Qed.

Lemma conversion_status_classification_witness :
  convert_app Sample.demo Sample.settings false Sample.start
    = (Sample.final, Ok (Some "total")) /\
  exists t : tree,
    input_dir Sample.start = Some t /\
    forall api, api ∈ Sample.apis -> ~ exempt api ->
      pm_status (descriptor Sample.demo api) = "total".
Proof.
  assert (convert_app Sample.demo Sample.settings false Sample.start
          = (Sample.final, Ok (Some "total")))
    as Hrun by (vm_compute; reflexivity).
  split; [exact Hrun|].
  destruct (conversion_status_classification _ _ _ _ _ _ Hrun)
    as (t & Hin & _ & _ & Htotal & _).
  exists t. split; [done|].
  injection Hin as <-. by apply Htotal.
Defined.

(** C4 on the documented example: with [app.window] and [app.runtime] as
    the only detected APIs the status is total, whatever the registry
    holds, although both resolve to the default descriptor. *)
Lemma conversion_status_exempt_only (c : collaborators) :
  conversion_status (resolved c ["app.window"; "app.runtime"]) = "total" /\
  resolved c ["app.window"; "app.runtime"] !! "app.window"
    = Some (default_manifest "app.window") /\
  resolved c ["app.window"; "app.runtime"] !! "app.runtime"
    = Some (default_manifest "app.runtime").
Proof. split_and!; reflexivity. Qed.

(** With [tts] registered as total and [serial] not registered the status
    is partial. *)
Lemma conversion_status_unregistered :
  conversion_status (resolved Sample.demo ["tts"; "serial"]) = "partial".
Proof. reflexivity. Qed.


(** C6, refuted as stated: without the manifest file in the tree the
    removal raises [OSError], also as the stage of the conversion, which
    leaves the tree as it was. *)
Lemma cleanup_output_dir_absent :
  Sample.with_worker !! CHROME_APP_MANIFEST_FILENAME Sample.demo = None /\
  cleanup_output_dir Sample.demo Sample.with_worker = Raise (OSError EmptyString) /\
  in_output_dir (updating (cleanup_output_dir Sample.demo)) Sample.occupied
  = (Sample.occupied, Raise (OSError EmptyString)).
Proof. split_and!; reflexivity. Qed.

Lemma convert_app_existing_output_witness :
  output_dir Sample.occupied = Some Sample.with_worker /\
  convert_app Sample.demo Sample.settings false Sample.occupied =
    ({| input_dir := Some Sample.app; output_dir := Some Sample.with_worker;
        log := [(ERROR, "Output directory already exists.")] |}, Ok None).
Proof.
  split; [reflexivity|].
  apply (convert_app_existing_output Sample.demo Sample.settings Sample.occupied
           Sample.with_worker).
  reflexivity.
Defined.

(** C8, where the code fails: a dependency on an unknown manager stops
    the conversion with an uncaught [KeyError], right after the APIs are
    sorted out; no error is logged, and the [ValueError] of
    [install_dependencies] is never raised. *)
Theorem convert_app_unknown_manager :
  convert_app (Sample.pipeline ["tts"] Sample.registry_yarn Sample.installing)
    Sample.settings false Sample.start =
  ({| input_dir := Some Sample.app; output_dir := Some Sample.app;
      log := [(INFO, "Found Chrome APIs: tts");
              (INFO, "Polyfilled Chrome APIs: tts");
              (WARNING, "Could not polyfill Chrome APIs: ")] |},
   Raise (KeyError "yarn")).
Proof. vm_compute. reflexivity. Qed.


Lemma service_worker_lists_itself_iff_witness :
  add_service_worker Sample.demo Sample.manifest [] "caterpillar" Sample.with_worker
    = ((add_service_worker Sample.demo Sample.manifest [] "caterpillar"
          Sample.with_worker).1, Ok ()) /\
  exists snapshot : tree,
    (SW_SCRIPT_NAME ∈ all_filepaths snapshot <->
     is_Some (Sample.with_worker !! SW_SCRIPT_NAME)).
Proof.
  assert (add_service_worker Sample.demo Sample.manifest [] "caterpillar"
            Sample.with_worker
          = ((add_service_worker Sample.demo Sample.manifest [] "caterpillar"
                Sample.with_worker).1, Ok ()))
    as Hrun by (vm_compute; reflexivity).
  split; [exact Hrun|].
  destruct (service_worker_lists_itself_iff _ _ _ _ _ _ Hrun)
    as (snapshot & scripts & _ & Hiff).
  by exists snapshot.
Defined.

(** C10, refuted as stated: for an app that ships a file [sw.js], the
    list of cached files of the generated service worker contains
    [sw.js]. *)
Lemma shipped_worker_is_cached :
  add_service_worker Sample.demo Sample.manifest [] "caterpillar" Sample.with_worker =
    (write_file SW_SCRIPT_NAME
       (service_worker_text Sample.demo Sample.snapshot [] ["background.js"]
          "caterpillar")
       Sample.snapshot, Ok ()) /\
  all_filepaths Sample.snapshot =
    ["caterpillar/register_sw.js"; "caterpillar/sw_static.js"; "index.html"; "sw.js"] /\
  SW_SCRIPT_NAME ∈ all_filepaths Sample.snapshot.
Proof.
  split_and!.
  - reflexivity.
  - vm_compute. reflexivity.
  - vm_compute. apply list_elem_of_In. simpl. tauto.
Qed.

(** C9 on the sample manifest. *)
Lemma generate_web_manifest_fields_witness :
  Sample.manifest !! "name" = Some (JStr "Example") /\
  icons_of Sample.manifest =
    Some {[ "16" := JStr "icon16.png"; "128" := JStr "icon128.png" ]} /\
  exists web_manifest,
    generate_web_manifest Sample.manifest "index.html" = Ok web_manifest /\
    web_manifest !! "name" = Some (JStr "Example") /\
    web_manifest !! "short_name" = Some (JStr "Example") /\
    web_manifest !! "lang" = Some (JStr "en") /\
    web_manifest !! "start_url" = Some (JStr "index.html") /\
    web_manifest !! "icons" =
      Some (JList [JDict {[ "src" := JStr "icon16.png"; "sizes" := JStr "16x16" ]};
                   JDict {[ "src" := JStr "icon128.png"; "sizes" := JStr "128x128" ]}]).
Proof.
  split; [reflexivity|]. split; [reflexivity|].
  destruct (generate_web_manifest_fields Sample.manifest "index.html"
              (JStr "Example")
              {[ "16" := JStr "icon16.png"; "128" := JStr "icon128.png" ]}
              eq_refl eq_refl)
    as (web_manifest & Hrun & Hname & Hshort & Hlang & Hurl & Hicons & _).
  exists web_manifest. split_and!; done.
Defined.

(** * Further properties of the pipeline *)

(** ** Script annotation over a tree *)

(** X1: the annotation pass only inserts lines.  The lines of the input
    are all in the output, in their order, and the output has one more
    line for every line the matcher flags. *)
Theorem out_js_lines_only_inserts (api_member_used : string -> option string)
    (lines : list string) :
  lines `sublist_of` out_js_lines api_member_used lines /\
  length (out_js_lines api_member_used lines) =
    length lines + length (filter (fun l => is_Some (api_member_used l)) lines).
Proof.
  induction lines as [|l ls [IH1 IH2]]; [by split; [constructor|]|].
  rewrite out_js_lines_cons, filter_cons.
  destruct (api_member_used l) as [api|] eqn:E.
  - rewrite decide_True by done. split.
    + by apply sublist_cons, sublist_skip.
    + simpl. rewrite IH2. lia.
  - rewrite decide_False by (by intros [? ?]). split.
    + by apply sublist_skip.
    + simpl. by rewrite IH2.
Qed.

Lemma walk_NoDup (t : tree) : NoDup (walk t).
Proof. apply NoDup_fst_map_to_list. Qed.

Lemma walk_elem_of (t : tree) path : path ∈ walk t <-> is_Some (t !! path).
Proof.
  unfold walk. rewrite list_elem_of_fmap. split.
  - intros [[k v] [-> Hin%elem_of_map_to_list]]. by exists v.
  - intros [v Hv]. exists (path, v). split; [done|]. by apply elem_of_map_to_list.
Qed.

Lemma insert_todos_into_files_run c paths t :
  NoDup paths -> (forall path, path ∈ paths -> is_Some (t !! path)) ->
  exists t',
    insert_todos_into_files c paths t = (t', Ok ()) /\
    forall path,
      t' !! path =
      if bool_decide (path ∈ paths) then annotated c path <$> t !! path
      else t !! path.
Proof.
  intros Hnodup. revert t. induction Hnodup as [|p ps Hp Hps IH]; intros t Hin.
  - exists t. split; [done|]. intros path. by rewrite bool_decide_eq_false_2 by set_solver.
  - cbn [insert_todos_into_files]. unfold insert_todos_into_file, write_file.
    destruct (Hin p ltac:(by left)) as [content Hcontent].
    destruct (endswith (basename p) ".js") eqn:Ejs.
    + rewrite Hcontent.
      destruct (IH (<[p := insert_todos (api_member_used c) content]> t))
        as (t' & Hrun & Ht').
      { intros path Hpath. rewrite lookup_insert_is_Some'. right. apply Hin. by right. }
      exists t'. split; [done|]. intros path. rewrite Ht'.
      destruct (decide (path = p)) as [->|Hne].
      * rewrite bool_decide_eq_false_2 by done.
        rewrite bool_decide_eq_true_2 by by left.
        rewrite lookup_insert_eq, Hcontent. unfold annotated. by rewrite Ejs.
      * rewrite lookup_insert_ne by done.
        by rewrite (bool_decide_ext (path ∈ p :: ps) (path ∈ ps)) by set_solver.
    + destruct (IH t) as (t' & Hrun & Ht').
      { intros path Hpath. apply Hin. by right. }
      exists t'. split; [done|]. intros path. rewrite Ht'.
      destruct (decide (path = p)) as [->|Hne].
      * rewrite bool_decide_eq_false_2 by done.
        rewrite bool_decide_eq_true_2 by by left.
        rewrite Hcontent. unfold annotated. by rewrite Ejs.
      * by rewrite (bool_decide_ext (path ∈ p :: ps) (path ∈ ps)) by set_solver.
Qed.

(** X2: [insert_todos_into_directory] never fails on a tree; it keeps
    the files of the tree, rewrites every file whose name ends in [.js]
    with its annotated content, once, and leaves every other file as it
    is. *)
Theorem insert_todos_into_directory_run (c : collaborators) (t : tree) :
  exists t',
    insert_todos_into_directory c t = (t', Ok ()) /\
    forall path,
      t' !! path =
      (fun content =>
         if endswith (basename path) ".js"
         then insert_todos (api_member_used c) content
         else content) <$> t !! path.
Proof.
  destruct (insert_todos_into_files_run c (walk t) t) as (t' & Hrun & Ht').
  { apply walk_NoDup. }
  { intros path. apply walk_elem_of. }
  exists t'. split; [done|]. intros path. rewrite Ht'. case_bool_decide as Hin; [done|].
  rewrite walk_elem_of in Hin. destruct (t !! path) eqn:E; [|done].
  exfalso. apply Hin. eauto.
Qed.

Lemma edit_file_Ok c paths m cfg path t t' :
  edit_file c paths m cfg path t = Ok t' ->
  t' = t \/
  exists content,
    t' = <[path := content]> t /\ is_Some (t !! path) /\
    (endswith (basename path) ".js" = true \/ endswith (basename path) ".html" = true).
Proof.
  unfold edit_file, insert_todos_into_file, write_file.
  destruct (endswith (basename path) ".js") eqn:Ejs.
  - destruct (t !! path) as [content|] eqn:E; [|done]. intros [= <-]. right. eauto.
  - destruct (endswith (basename path) ".html") eqn:Ehtml; [|intros [= <-]; by left].
    destruct (t !! path) as [content|] eqn:E; [|done].
    destruct (inject_script_tags _ _ _ _) as [doc|]; [|done].
    intros [= <-]. right. eauto.
Qed.

Lemma edit_files_keeps c required m cfg paths t :
  (forall path,
     is_Some ((edit_files c required m cfg paths t).1 !! path) <-> is_Some (t !! path)) /\
  (forall path,
     endswith (basename path) ".js" = false ->
     endswith (basename path) ".html" = false ->
     (edit_files c required m cfg paths t).1 !! path = t !! path).
Proof.
  revert t. induction paths as [|p ps IH]; intros t; [done|].
  cbn [edit_files]. destruct (edit_file c required m cfg p t) as [t1|e] eqn:E; [|done].
  specialize (IH t1). destruct IH as [IH1 IH2].
  apply edit_file_Ok in E as [->|(content & -> & Hp & Hext)]; [done|]. split.
  - intros path. rewrite IH1, lookup_insert_is_Some'.
    split; [intros [<-|?]; done | by right].
  - intros path Hjs Hhtml. rewrite IH2 by done.
    apply lookup_insert_ne. intros ->. destruct Hext; congruence.
Qed.

(** X3: [edit_code] neither adds nor removes a file, and it leaves every
    file whose name ends neither in [.js] nor in [.html] as it is; this
    holds of the tree it leaves behind also when it raises part-way. *)
Theorem edit_code_keeps_files (c : collaborators) (required_js_paths : list string)
    (chrome_app_manifest : gmap string json) (cfg : config) (t : tree) :
  (forall path,
     is_Some ((edit_code c required_js_paths chrome_app_manifest cfg t).1 !! path)
     <-> is_Some (t !! path)) /\
  (forall path,
     endswith (basename path) ".js" = false ->
     endswith (basename path) ".html" = false ->
     (edit_code c required_js_paths chrome_app_manifest cfg t).1 !! path = t !! path).
Proof.
  unfold edit_code. split.
  - intros path. apply edit_files_keeps.
  - intros path Hjs Hhtml. by apply edit_files_keeps.
Qed.

Lemma edit_files_scripts c required m cfg paths t :
  Forall (fun path => endswith (basename path) ".js" = true \/
                      endswith (basename path) ".html" = false) paths ->
  edit_files c required m cfg paths t = insert_todos_into_files c paths t.
Proof.
  intros Hpaths. revert t. induction Hpaths as [|p ps Hp _ IH]; intros t; [done|].
  cbn [edit_files insert_todos_into_files]. unfold edit_file.
  destruct (endswith (basename p) ".js") eqn:Ejs.
  - destruct (insert_todos_into_file c p t); [apply IH | done].
  - destruct Hp as [?| ->]; [done | apply IH].
Qed.

(** X4: on a tree without markup files (every file name ends in [.js],
    or does not end in [.html]) [edit_code] does what
    [insert_todos_into_directory] does, whatever the required scripts,
    the manifest and the configuration are; it cannot fail there. *)
Theorem edit_code_without_markup (c : collaborators) (required_js_paths : list string)
    (chrome_app_manifest : gmap string json) (cfg : config) (t : tree) :
  (forall path, is_Some (t !! path) ->
     endswith (basename path) ".js" = true \/
     endswith (basename path) ".html" = false) ->
  edit_code c required_js_paths chrome_app_manifest cfg t =
    insert_todos_into_directory c t /\
  (edit_code c required_js_paths chrome_app_manifest cfg t).2 = Ok ().
Proof.
  intros Hfiles.
  assert (edit_code c required_js_paths chrome_app_manifest cfg t =
          insert_todos_into_directory c t) as Heq.
  { apply edit_files_scripts, Forall_forall. intros path Hpath.
    by apply Hfiles, walk_elem_of. }
  split; [done|]. rewrite Heq.
  destruct (insert_todos_into_files_run c (walk t) t) as (t' & Hrun & _).
  { apply walk_NoDup. }
  { intros path. apply walk_elem_of. }
  unfold insert_todos_into_directory. by rewrite Hrun.
Qed.

Lemma edit_code_without_markup_witness :
  (forall path, is_Some (Sample.app !! path) ->
     endswith (basename path) ".js" = true \/
     endswith (basename path) ".html" = false) /\
  edit_code Sample.demo ["caterpillar.js"] Sample.manifest Sample.settings Sample.app =
    insert_todos_into_directory Sample.demo Sample.app.
Proof.
  assert (forall path, is_Some (Sample.app !! path) ->
            endswith (basename path) ".js" = true \/
            endswith (basename path) ".html" = false) as Hfiles.
  { intros path [content Hpath]. unfold Sample.app in Hpath.
    rewrite !lookup_insert, lookup_singleton in Hpath.
    repeat case_decide; subst; try (by left); by right. }
  split; [exact Hfiles|].
  exact (proj1 (edit_code_without_markup Sample.demo ["caterpillar.js"] Sample.manifest
                  Sample.settings Sample.app Hfiles)).
Defined.

(** ** Elements of a document *)

Lemma start_tags_app (xs ys : list node) :
  start_tags (xs ++ ys) = start_tags xs ++ start_tags ys.
Proof. apply omap_app. Qed.

Section InsertFacts.
Context (p : node -> bool).
Hypothesis p_contents : forall name attrs contents contents',
  p (Tag name attrs contents) = p (Tag name attrs contents').

Lemma find_all_in_length n :
  length (start_tags (find_all_in p n)) = length (find_all_in p n).
Proof.
  induction n as [name attrs contents IH|text] using node_forall_ind; [|done].
  rewrite find_all_in_tag, start_tags_app, !length_app. f_equal.
  - by destruct (p _).
  - unfold find_all. induction IH as [|n ns Hn _ IHns]; [done|].
    simpl. rewrite start_tags_app, !length_app. by rewrite Hn, IHns.
Qed.

Lemma find_all_length doc :
  length (start_tags (find_all p doc)) = length (find_all p doc).
Proof.
  induction doc as [|n ns IH]; [done|].
  rewrite find_all_cons, start_tags_app, !length_app.
  by rewrite find_all_in_length, IH.
Qed.

Lemma start_tags_nil doc : start_tags (find_all p doc) = [] <-> find_all p doc = [].
Proof.
  split; [|by intros ->]. intros H. apply nil_length_inv.
  by rewrite <- find_all_length, H.
Qed.

Lemma start_tags_tag name attrs contents contents' :
  start_tags (if p (Tag name attrs contents) then [Tag name attrs contents] else []) =
  start_tags (if p (Tag name attrs contents') then [Tag name attrs contents'] else []).
Proof. rewrite (p_contents _ _ _ contents'). by destruct (p _). Qed.

Lemma find_all_insert (i : nat) name attrs contents contents' doc :
  doc !! i = Some (Tag name attrs contents) ->
  find_all p (<[i := Tag name attrs contents']> doc) =
  find_all p (take i doc) ++
  ((if p (Tag name attrs contents') then [Tag name attrs contents'] else [])
   ++ find_all p contents') ++ find_all p (drop (S i) doc).
Proof.
  intros Hi. rewrite insert_take_drop by by eapply lookup_lt_Some.
  by rewrite find_all_app, find_all_cons, find_all_in_tag.
Qed.

Lemma find_all_middle (i : nat) name attrs contents doc :
  doc !! i = Some (Tag name attrs contents) ->
  find_all p doc =
  find_all p (take i doc) ++
  ((if p (Tag name attrs contents) then [Tag name attrs contents] else [])
   ++ find_all p contents) ++ find_all p (drop (S i) doc).
Proof.
  intros Hi. rewrite <- (take_drop_middle doc i _ Hi) at 1.
  by rewrite find_all_app, find_all_cons, find_all_in_tag.
Qed.

(** An element that does not match, put anywhere, leaves the matches as
    they are. *)
Lemma find_all_insert_at_other new r doc :
  find_all_in p new = [] ->
  start_tags (find_all p (insert_at r new doc)) = start_tags (find_all p doc).
Proof.
  intros Hnew. revert doc. induction r as [|i r IH]; intros doc; [done|].
  destruct r as [|j r].
  - change (insert_at [i] new doc) with (take i doc ++ new :: drop i doc).
    rewrite find_all_app, find_all_cons, Hnew. simpl.
    by rewrite <- find_all_app, take_drop.
  - assert (insert_at (i :: j :: r) new doc =
            match doc !! i with
            | Some (Tag name attrs contents) =>
                <[i := Tag name attrs (insert_at (j :: r) new contents)]> doc
            | _ => doc
            end) as -> by done.
    destruct (doc !! i) as [[name attrs contents|text]|] eqn:Hi; [|done..].
    rewrite (find_all_insert _ _ _ _ _ _ Hi), (find_all_middle _ _ _ _ _ Hi).
    rewrite !start_tags_app, IH. by rewrite (start_tags_tag _ _ _ contents).
Qed.

(** An element put among the contents of a tag, or of the document, is
    found with its matches besides those that were there. *)
Lemma find_all_insert_at_container new r k doc :
  is_container r doc ->
  start_tags (find_all p (insert_at (r ++ [k]) new doc)) ≡ₚ
  start_tags (find_all_in p new) ++ start_tags (find_all p doc).
Proof.
  revert doc. induction r as [|i r IH]; intros doc Hr.
  - change (insert_at ([] ++ [k]) new doc) with (take k doc ++ new :: drop k doc).
    rewrite find_all_app, find_all_cons, !start_tags_app.
    rewrite <- (take_drop k doc) at 3. rewrite find_all_app, start_tags_app.
    by rewrite Permutation_app_swap_app.
  - cbn [is_container] in Hr.
    destruct (doc !! i) as [[name attrs contents|text]|] eqn:Hi; [|done..].
    assert (insert_at ((i :: r) ++ [k]) new doc =
            <[i := Tag name attrs (insert_at (r ++ [k]) new contents)]> doc) as ->.
    { rewrite <- app_comm_cons. cbn [insert_at]. rewrite Hi. by destruct r. }
    rewrite (find_all_insert _ _ _ _ _ _ Hi), (find_all_middle _ _ _ _ _ Hi).
    rewrite !start_tags_app, (IH _ Hr).
    rewrite (start_tags_tag _ _ _ contents).
    set (a := start_tags (find_all p (take i doc))).
    set (b := start_tags (if p _ then _ else _)).
    set (x := start_tags (find_all_in p new)).
    set (y := start_tags (find_all p contents)).
    set (z := start_tags (find_all p (drop (S i) doc))).
    clearbody a b x y z. solve_Permutation.
Qed.

End InsertFacts.

Lemma is_container_insert_at new r k doc :
  is_container r doc -> is_container r (insert_at (r ++ [k]) new doc).
Proof.
  revert doc. induction r as [|i r IH]; intros doc Hr; [done|].
  cbn [is_container] in *.
  destruct (doc !! i) as [[name attrs contents|text]|] eqn:Hi; [|done..].
  assert (insert_at ((i :: r) ++ [k]) new doc =
          <[i := Tag name attrs (insert_at (r ++ [k]) new contents)]> doc) as ->.
  { rewrite <- app_comm_cons. cbn [insert_at]. rewrite Hi. by destruct r. }
  rewrite list_lookup_insert_eq by by eapply lookup_lt_Some. by apply IH.
Qed.

Lemma is_container_insert_first name attrs r doc :
  is_container r doc ->
  is_container (r ++ [0]) (insert_at (r ++ [0]) (Tag name attrs []) doc).
Proof.
  revert doc. induction r as [|i r IH]; intros doc Hr; [done|].
  cbn [is_container] in Hr.
  destruct (doc !! i) as [[nm at' contents|text]|] eqn:Hi; [|done..].
  assert (insert_at ((i :: r) ++ [0]) (Tag name attrs []) doc =
          <[i := Tag nm at' (insert_at (r ++ [0]) (Tag name attrs []) contents)]> doc) as ->.
  { rewrite <- app_comm_cons. cbn [insert_at]. rewrite Hi. by destruct r. }
  rewrite <- app_comm_cons. cbn [is_container].
  rewrite list_lookup_insert_eq by by eapply lookup_lt_Some. by apply IH.
Qed.

Lemma first_at_is_container p r doc :
  (forall text, p (NavigableString text) = false) ->
  first_at p r doc -> is_container r doc.
Proof.
  intros Hp. induction 1 as [n ns Hn|name attrs contents ns q Hq _ IH|n ns j q Hn _ IH].
  - destruct n; [done|]. by rewrite Hp in Hn.
  - done.
  - done.
Qed.



Lemma matching_app p (xs ys : list node) :
  matching p (xs ++ ys) = matching p xs ++ matching p ys.
Proof. unfold matching. by rewrite find_all_app, start_tags_app. Qed.

Lemma matching_nil p doc : matching p doc = [] <-> find_all p doc = [].
Proof. apply start_tags_nil. Qed.

Lemma matching_insert_at p new r k doc :
  tag_predicate p -> is_container r doc ->
  matching p (insert_at (r ++ [k]) new doc) ≡ₚ matching p [new] ++ matching p doc.
Proof.
  intros Hp Hr. unfold matching at 1 3.
  rewrite (find_all_insert_at_container p Hp new r k doc Hr).
  unfold matching, find_all. simpl. by rewrite app_nil_r.
Qed.

Lemma matching_empty_iff p news doc doc' :
  matching p doc' ≡ₚ matching p news ++ matching p doc ->
  matching p news = [] ->
  find_all p doc' = [] <-> find_all p doc = [].
Proof.
  intros Hperm Hnews. rewrite Hnews in Hperm. simpl in Hperm.
  rewrite <- !matching_nil. split; intros H; rewrite H in Hperm.
  - by apply Permutation_nil_l in Hperm.
  - by apply Permutation_nil_r in Hperm.
Qed.

Lemma flat_map_ext_elem_of {A B} (f g : A -> list B) (l : list A) :
  (forall a, a ∈ l -> f a = g a) -> flat_map f l = flat_map g l.
Proof.
  induction l as [|a l IH]; intros H; [done|]. simpl.
  rewrite H by by left. rewrite IH; [done|]. intros b Hb. apply H. by right.
Qed.

Lemma tag_predicate_meta_named tag : tag_predicate (meta_named tag).
Proof. by intros name attrs contents contents'. Qed.

Lemma tag_predicate_meta_charset : tag_predicate meta_charset.
Proof. by intros name attrs contents contents'. Qed.


(** The first step of [inject_misc_tags]: the head of the document, made
    when there is none. *)
Lemma misc_head (doc : soup) :
  let stage :=
    match find (tag_named "head") doc with
    | Some head => (doc, head)
    | None =>
        match find (tag_named "html") doc with
        | Some html => insert_first html (Tag "head" [] []) doc
        | None => insert_first [] (Tag "head" [] []) doc
        end
    end in
  is_container stage.2 stage.1 /\
  forall p, tag_predicate p ->
    matching p stage.1 ≡ₚ
    matching p (match find (tag_named "head") doc with
                | Some _ => []
                | None => [Tag "head" [] []]
                end) ++ matching p doc.
Proof.
  cbn zeta. destruct (find (tag_named "head") doc) as [head|] eqn:Hhead.
  - split; [|done]. simpl.
    eapply first_at_is_container; [|by apply find_first_at]. done.
  - assert (forall r, is_container r doc ->
      is_container (insert_first r (Tag "head" [] []) doc).2
                   (insert_first r (Tag "head" [] []) doc).1 /\
      forall p, tag_predicate p ->
        matching p (insert_first r (Tag "head" [] []) doc).1 ≡ₚ
        matching p [Tag "head" [] []] ++ matching p doc) as Hinsert.
    { intros r Hr. unfold insert_first. simpl. split.
      - by apply is_container_insert_first.
      - intros p Hp. by apply matching_insert_at. }
    destruct (find (tag_named "html") doc) as [html|] eqn:Hhtml.
    + apply Hinsert. eapply first_at_is_container; [|by apply find_first_at]. done.
    + by apply Hinsert.
Qed.

(** The loop over the meta tags. *)
Lemma misc_metas (m : gmap string json) (head : ref) (tags : list string) (doc : soup) :
  NoDup tags -> is_container head doc ->
  let doc' :=
    foldl (fun doc tag =>
             match m !! tag with
             | Some content =>
                 match find_all (fun n => tag_named "meta" n && attr_is "name" tag n) doc with
                 | [] => (append_to head
                            (Tag "meta" [("content", content); ("name", JStr tag)] [])
                            doc).1
                 | _ => doc
                 end
             | None => doc
             end) doc tags in
  is_container head doc' /\
  forall p, tag_predicate p ->
    matching p doc' ≡ₚ matching p (flat_map (new_meta m doc) tags) ++ matching p doc.
Proof.
  intros Hnodup. revert doc. induction Hnodup as [|tag rest Htag _ IH]; intros doc Hhead.
  { split; [done|]. intros p _. done. }
  cbn [foldl flat_map]. cbn zeta.
  set (step := match m !! tag with Some _ => _ | None => doc end).
  assert (is_container head step /\
          forall p, tag_predicate p ->
            matching p step ≡ₚ matching p (new_meta m doc tag) ++ matching p doc)
    as [Hstep Hnew].
  { subst step. unfold new_meta. destruct (m !! tag) as [content|]; [|done].
    fold (meta_named tag).
    destruct (find_all (meta_named tag) doc); [|done].
    unfold append_to. simpl. split.
    - by apply is_container_insert_at.
    - intros p Hp. by apply matching_insert_at. }
  destruct (IH step Hstep) as [IH1 IH2]. cbn zeta in IH1, IH2.
  split; [done|]. intros p Hp.
  rewrite (IH2 p Hp), (Hnew p Hp), matching_app.
  assert (flat_map (new_meta m step) rest = flat_map (new_meta m doc) rest) as ->;
    [|solve_Permutation].
  apply flat_map_ext_elem_of. intros tag' Htag'. unfold new_meta.
  destruct (m !! tag') as [content'|]; [|done].
  assert (find_all (meta_named tag') step = [] <-> find_all (meta_named tag') doc = [])
    as Hiff.
  { eapply matching_empty_iff; [apply Hnew, tag_predicate_meta_named|].
    unfold new_meta. destruct (m !! tag) as [content|]; [|done].
    destruct (find_all (meta_named tag) doc); [|done].
    unfold matching, find_all, meta_named. simpl.
    assert (String.eqb tag tag' = false) as ->; [|done].
    apply String.eqb_neq. by intros ->. }
  destruct (find_all (meta_named tag') step), (find_all (meta_named tag') doc);
    try done; [by destruct Hiff as [H _]; specialize (H eq_refl) |
               by destruct Hiff as [_ H]; specialize (H eq_refl)].
Qed.

Lemma new_meta_ext m doc doc' tag :
  (find_all (meta_named tag) doc' = [] <-> find_all (meta_named tag) doc = []) ->
  new_meta m doc' tag = new_meta m doc tag.
Proof.
  intros Hiff. unfold new_meta. destruct (m !! tag) as [content|]; [|done].
  destruct (find_all (meta_named tag) doc'), (find_all (meta_named tag) doc);
    try done; [by destruct Hiff as [H _]; specialize (H eq_refl) |
               by destruct Hiff as [_ H]; specialize (H eq_refl)].
Qed.

Lemma matching_charset_new_meta m doc tags :
  matching meta_charset (flat_map (new_meta m doc) tags) = [].
Proof.
  induction tags as [|tag tags IH]; [done|].
  cbn [flat_map]. rewrite matching_app, IH, app_nil_r.
  unfold new_meta. destruct (m !! tag); [|done]. by destruct (find_all _ doc).
Qed.

(** What [inject_misc_tags] adds to a document: the elements of
    [misc_tags], and nothing else. *)
Lemma inject_misc_tags_matching doc m root p :
  tag_predicate p ->
  matching p (inject_misc_tags doc m root) ≡ₚ
  matching p (misc_tags doc m root) ++ matching p doc.
Proof.
  intros Hp. unfold inject_misc_tags, misc_tags.
  pose proof (misc_head doc) as Hhead. cbn zeta in Hhead.
  set (stage := match find (tag_named "head") doc with
                | Some head => (doc, head)
                | None => _
                end) in *.
  set (made := match find (tag_named "head") doc with
               | Some _ => []
               | None => [Tag "head" [] []]
               end) in *.
  clearbody stage. destruct stage as [doc1 head]. simpl in Hhead.
  destruct Hhead as [Hc1 Hm1].
  fold (manifest_link root).
  set (doc2 := (append_to head (manifest_link root) doc1).1).
  assert (is_container head doc2 /\
          forall q, tag_predicate q ->
            matching q doc2 ≡ₚ matching q [manifest_link root] ++ matching q doc1)
    as [Hc2 Hm2].
  { subst doc2. unfold append_to. simpl. split.
    - by apply is_container_insert_at.
    - intros q Hq. by apply matching_insert_at. }
  clearbody doc2.
  pose proof (misc_metas m head ["description"; "author"; "name"] doc2) as Hmetas.
  cbn zeta in Hmetas.
  set (doc3 := foldl _ doc2 _) in *. clearbody doc3.
  destruct Hmetas as [Hc3 Hm3]; [|done|].
  { repeat constructor; set_solver. }
  assert (flat_map (new_meta m doc2) ["description"; "author"; "name"] =
          flat_map (new_meta m doc) ["description"; "author"; "name"]) as Hnew.
  { apply flat_map_ext_elem_of. intros tag _. apply new_meta_ext.
    pose proof (tag_predicate_meta_named tag) as Hq.
    etrans.
    - eapply matching_empty_iff; [by apply Hm2 | done].
    - eapply matching_empty_iff; [by apply Hm1|].
      subst made. by destruct (find (tag_named "head") doc). }
  rewrite Hnew in Hm3. clear Hnew.
  assert (find_all meta_charset doc3 = [] <-> find_all meta_charset doc = []) as Hcharset.
  { pose proof tag_predicate_meta_charset as Hq.
    etrans; [|etrans].
    - eapply matching_empty_iff; [by apply Hm3 | apply matching_charset_new_meta].
    - eapply matching_empty_iff; [by apply Hm2 | done].
    - eapply matching_empty_iff; [by apply Hm1|].
      subst made. by destruct (find (tag_named "head") doc). }
  fold meta_charset.
  assert (matching p
            (match find_all meta_charset doc3 with
             | [] => (insert_first head (Tag "meta" [("charset", JStr "utf-8")] []) doc3).1
             | _ => doc3
             end) ≡ₚ
          matching p (match find_all meta_charset doc with
                      | [] => [Tag "meta" [("charset", JStr "utf-8")] []]
                      | _ => []
                      end) ++ matching p doc3) as Hlast.
  { destruct (find_all meta_charset doc3), (find_all meta_charset doc);
      try done; [| by destruct Hcharset as [H _]; specialize (H eq_refl) |
                   by destruct Hcharset as [_ H]; specialize (H eq_refl)].
    unfold insert_first. simpl. by apply matching_insert_at. }
  rewrite Hlast, (Hm3 p Hp), (Hm2 p Hp), (Hm1 p Hp), !matching_app.
  solve_Permutation.
Qed.

Lemma sublist_same_length {A} (l1 l2 : list A) :
  l1 `sublist_of` l2 -> length l2 <= length l1 -> l1 = l2.
Proof.
  induction 1 as [|x l1 l2 _ IH|x l1 l2 Hsub _]; intros Hlen; [done|..].
  - simpl in Hlen. f_equal. apply IH. lia.
  - apply sublist_length in Hsub. simpl in Hlen. lia.
Qed.

Section SublistFacts.
Context (p : node -> bool).
Hypothesis p_contents : tag_predicate p.

(** Inserting an element removes no match and keeps the matches in their
    order. *)
Lemma find_all_insert_at_sublist new r doc :
  start_tags (find_all p doc) `sublist_of` start_tags (find_all p (insert_at r new doc)).
Proof.
  revert doc. induction r as [|i r IH]; intros doc; [done|].
  destruct r as [|j r].
  - change (insert_at [i] new doc) with (take i doc ++ new :: drop i doc).
    rewrite <- (take_drop i doc) at 1.
    rewrite !find_all_app, find_all_cons, !start_tags_app.
    apply sublist_app; [done|]. by apply sublist_inserts_l.
  - assert (insert_at (i :: j :: r) new doc =
            match doc !! i with
            | Some (Tag name attrs contents) =>
                <[i := Tag name attrs (insert_at (j :: r) new contents)]> doc
            | _ => doc
            end) as -> by done.
    destruct (doc !! i) as [[name attrs contents|text]|] eqn:Hi; [|done..].
    rewrite (find_all_insert _ _ _ _ _ _ _ Hi), (find_all_middle _ _ _ _ _ _ Hi).
    rewrite !start_tags_app.
    rewrite (start_tags_tag p p_contents name attrs (insert_at (j :: r) new contents) contents).
    repeat apply sublist_app; done || apply IH.
Qed.

Lemma matching_insert_at_sublist new r doc :
  matching p doc `sublist_of` matching p (insert_at r new doc).
Proof. apply find_all_insert_at_sublist. Qed.

(** [inject_misc_tags] removes no element and keeps the elements in their
    order. *)
Lemma inject_misc_tags_sublist doc m root :
  matching p doc `sublist_of` matching p (inject_misc_tags doc m root).
Proof.
  unfold inject_misc_tags.
  set (stage := match find (tag_named "head") doc with
                | Some head => (doc, head)
                | None => _
                end).
  assert (matching p doc `sublist_of` matching p stage.1) as Hstage.
  { subst stage. destruct (find (tag_named "head") doc); [done|].
    destruct (find (tag_named "html") doc); apply matching_insert_at_sublist. }
  clearbody stage. destruct stage as [doc1 head]. simpl in Hstage.
  etrans; [apply Hstage|]. clear Hstage.
  set (doc2 := (append_to head _ doc1).1).
  assert (matching p doc1 `sublist_of` matching p doc2) as Hlink
    by apply matching_insert_at_sublist.
  etrans; [apply Hlink|]. clear Hlink.
  clearbody doc2.
  set (doc3 := foldl _ doc2 _).
  assert (matching p doc2 `sublist_of` matching p doc3) as Hmetas.
  { subst doc3. generalize ["description"; "author"; "name"]. intros tags.
    revert doc2. induction tags as [|tag tags IH]; intros doc2; [done|].
    cbn [foldl]. etrans; [|apply IH]. destruct (m !! tag); [|done].
    destruct (find_all _ doc2); [|done]. apply matching_insert_at_sublist. }
  etrans; [apply Hmetas|]. clearbody doc3.
  destruct (find_all _ doc3); [|done]. apply matching_insert_at_sublist.
Qed.

End SublistFacts.

(** Where [inject_misc_tags] adds no match, the matches stay as they
    are. *)
Lemma inject_misc_tags_same p doc m root :
  tag_predicate p -> matching p (misc_tags doc m root) = [] ->
  matching p (inject_misc_tags doc m root) = matching p doc.
Proof.
  intros Hp Hnone. symmetry. apply sublist_same_length.
  - by apply inject_misc_tags_sublist.
  - pose proof (inject_misc_tags_matching doc m root p Hp) as Hperm.
    rewrite Hnone in Hperm. simpl in Hperm. by rewrite Hperm.
Qed.

Lemma matching_misc_tags_other p doc m root :
  (forall name attrs contents,
     name ∈ ["head"; "link"; "meta"] -> p (Tag name attrs contents) = false) ->
  matching p (misc_tags doc m root) = [].
Proof.
  intros Hother.
  assert (forall name attrs, name ∈ ["head"; "link"; "meta"] ->
            matching p [Tag name attrs []] = []) as Hone.
  { intros name attrs Hname. unfold matching, find_all. simpl. by rewrite Hother. }
  unfold misc_tags. rewrite !matching_app.
  assert (matching p (flat_map (new_meta m doc) ["description"; "author"; "name"]) = [])
    as ->.
  { generalize ["description"; "author"; "name"]. intros tags.
    induction tags as [|tag tags IH]; [done|].
    cbn [flat_map]. rewrite matching_app, IH, app_nil_r.
    unfold new_meta. destruct (m !! tag); [|done].
    destruct (find_all _ doc); [|done]. apply Hone. set_solver. }
  unfold manifest_link. rewrite (Hone "link") by set_solver.
  destruct (find (tag_named "head") doc), (find_all meta_charset doc);
    rewrite ?Hone by set_solver; done.
Qed.

(** X5: [inject_misc_tags] only adds head, link and meta elements.  For
    a search criterion that looks at the start tag and accepts none of
    these three, the elements found after the call are those found
    before it, in the same order. *)
Theorem inject_misc_tags_other_elements (p : node -> bool) (doc : soup)
    (chrome_app_manifest : gmap string json) (root_path : string) :
  tag_predicate p ->
  (forall name attrs contents,
     name ∈ ["head"; "link"; "meta"] -> p (Tag name attrs contents) = false) ->
  matching p (inject_misc_tags doc chrome_app_manifest root_path) = matching p doc.
Proof.
  intros Hp Hother. apply inject_misc_tags_same; [done|].
  by apply matching_misc_tags_other.
Qed.

Lemma inject_misc_tags_other_elements_witness :
  tag_predicate (tag_named "script") /\
  (forall name attrs contents,
     name ∈ ["head"; "link"; "meta"] ->
     tag_named "script" (Tag name attrs contents) = false) /\
  matching (tag_named "script") (inject_misc_tags Sample.page Sample.manifest ".") =
    [("script", [("src", JStr "S.js")])].
Proof.
  assert (forall name attrs contents,
            name ∈ ["head"; "link"; "meta"] ->
            tag_named "script" (Tag name attrs contents) = false) as Hother.
  { intros name attrs contents Hname.
    repeat (apply elem_of_cons in Hname as [->|Hname]); try reflexivity.
    by apply elem_of_nil in Hname. }
  split; [by intros name attrs contents contents'|]. split; [exact Hother|].
  rewrite (inject_misc_tags_other_elements (tag_named "script") Sample.page
             Sample.manifest "." (fun _ _ _ _ => eq_refl) Hother).
  reflexivity.
Defined.




(** X7: [inject_misc_tags] adds the meta element with charset utf-8
    only to a document without a meta element that has a charset
    attribute; the meta elements with a charset that a document has
    are left as they are. *)
Theorem inject_misc_tags_charset (doc : soup)
    (chrome_app_manifest : gmap string json) (root_path : string) :
  matching meta_charset (inject_misc_tags doc chrome_app_manifest root_path) =
  match find_all meta_charset doc with
  | [] => [("meta", [("charset", JStr "utf-8")])]
  | _ => matching meta_charset doc
  end.
Proof.
  assert (matching meta_charset (misc_tags doc chrome_app_manifest root_path) =
          match find_all meta_charset doc with
          | [] => [("meta", [("charset", JStr "utf-8")])]
          | _ => []
          end) as Hadded.
  { unfold misc_tags. rewrite !matching_app, matching_charset_new_meta.
    destruct (find (tag_named "head") doc), (find_all meta_charset doc); done. }
  destruct (find_all meta_charset doc) as [|n ns] eqn:Hdoc.
  - pose proof (inject_misc_tags_matching doc chrome_app_manifest root_path _
                  tag_predicate_meta_charset) as Hperm.
    rewrite Hadded in Hperm. unfold matching at 2 in Hperm.
    rewrite Hdoc in Hperm. simpl in Hperm.
    by apply Permutation_singleton_r in Hperm.
  - by apply inject_misc_tags_same; [apply tag_predicate_meta_charset|].
Qed.

Lemma matching_named_new_meta m doc tag tag' :
  matching (meta_named tag) (new_meta m doc tag') =
  if decide (tag' = tag) then start_tags (new_meta m doc tag) else [].
Proof.
  unfold new_meta. destruct (decide (tag' = tag)) as [->|Hne].
  - destruct (m !! tag); [|done]. destruct (find_all _ doc); [|done].
    unfold matching, find_all, meta_named. simpl. by rewrite String.eqb_refl.
  - destruct (m !! tag'); [|done]. destruct (find_all _ doc); [|done].
    unfold matching, find_all, meta_named. simpl.
    assert (String.eqb tag' tag = false) as ->; [|done].
    by apply String.eqb_neq.
Qed.

(** X8: for [description], [author] and [name], [inject_misc_tags] adds
    a meta element of that name, with the member of the manifest as its
    content, when the manifest has the member and the document has no
    meta element of that name; otherwise the meta elements of that name
    are left as they are. *)
Theorem inject_misc_tags_meta (doc : soup)
    (chrome_app_manifest : gmap string json) (root_path tag : string) :
  tag ∈ ["description"; "author"; "name"] ->
  matching (meta_named tag) (inject_misc_tags doc chrome_app_manifest root_path) =
  match find_all (meta_named tag) doc, chrome_app_manifest !! tag with
  | [], Some content => [("meta", [("content", content); ("name", JStr tag)])]
  | _, _ => matching (meta_named tag) doc
  end.
Proof.
  intros Htag.
  assert (matching (meta_named tag) (misc_tags doc chrome_app_manifest root_path) =
          start_tags (new_meta chrome_app_manifest doc tag)) as Hadded.
  { unfold misc_tags. rewrite !matching_app. cbn [flat_map].
    rewrite !matching_app, !matching_named_new_meta.
    assert (matching (meta_named tag)
              match find (tag_named "head") doc with
              | Some _ => []
              | None => [Tag "head" [] []]
              end = []) as -> by by destruct (find _ doc).
    assert (matching (meta_named tag)
              match find_all meta_charset doc with
              | [] => [Tag "meta" [("charset", JStr "utf-8")] []]
              | _ => []
              end = []) as -> by by destruct (find_all _ doc).
    assert (matching (meta_named tag) [manifest_link root_path] = []) as -> by done.
    assert (matching (meta_named tag) [] = []) as -> by done.
    repeat (apply elem_of_cons in Htag as [->|Htag]); [..|by apply elem_of_nil in Htag];
      repeat case_decide; try done; by rewrite ?app_nil_r. }
  pose proof (inject_misc_tags_matching doc chrome_app_manifest root_path _
                (tag_predicate_meta_named tag)) as Hperm.
  rewrite Hadded in Hperm. unfold new_meta in Hperm, Hadded.
  destruct (find_all (meta_named tag) doc) as [|n ns] eqn:Hdoc.
  - destruct (chrome_app_manifest !! tag) as [content|].
    + unfold matching at 2 in Hperm. rewrite Hdoc in Hperm. simpl in Hperm.
      by apply Permutation_singleton_r in Hperm.
    + by apply inject_misc_tags_same; [apply tag_predicate_meta_named|].
  - apply inject_misc_tags_same; [apply tag_predicate_meta_named|].
    rewrite Hadded. by destruct (chrome_app_manifest !! tag).
Qed.

Lemma inject_misc_tags_meta_witness :
  "name" ∈ ["description"; "author"; "name"] /\
  matching (meta_named "name") (inject_misc_tags Sample.page Sample.manifest ".") =
    [("meta", [("content", JStr "Example"); ("name", JStr "name")])].
Proof.
  assert ("name" ∈ ["description"; "author"; "name"]) as Hname.
  { apply list_elem_of_In. simpl. tauto. }
  split; [exact Hname|].
  rewrite (inject_misc_tags_meta Sample.page Sample.manifest "." "name" Hname).
  reflexivity.
Defined.


(** ** Script tags in markup files *)

Lemma inject_script_loop_other p root_path boilerplate_dir paths state state' :
  tag_predicate p ->
  (forall attrs contents, p (Tag "script" attrs contents) = false) ->
  inject_script_loop root_path boilerplate_dir state paths = Ok state' ->
  matching p state'.1 = matching p state.1.
Proof.
  intros Hp Hscript. revert state.
  induction paths as [|script_path rest IH]; intros [doc first_script].
  { by intros [= <-]. }
  rewrite inject_script_loop_cons.
  destruct (inject_script_tag _ _ _ _) as [state1|] eqn:Hstep; [|done].
  intros Hrest. rewrite (IH _ Hrest). clear IH Hrest.
  unfold inject_script_tag in Hstep.
  assert (forall r, matching p (insert_at r
            (new_script_tag (path_join (path_join root_path boilerplate_dir) script_path))
            doc) = matching p doc) as Hinsert.
  { intros r. apply find_all_insert_at_other; [done|]. simpl. by rewrite Hscript. }
  destruct first_script as [r|].
  - injection Hstep as <-. apply Hinsert.
  - destruct (find (tag_named "body") doc) as [body|]; [|done].
    unfold append_to in Hstep. injection Hstep as <-. apply Hinsert.
Qed.

(** X9: in a document with a script element or a body the injection
    succeeds; the script elements are then those of the required paths,
    in their order, followed by the script elements the document had,
    and the elements of every other kind are found as before. *)
Theorem inject_script_tags_in_order (doc : soup) (required_js_paths : list string)
    (root_path boilerplate_dir : string) :
  is_Some (find (tag_named "script") doc) \/ is_Some (find (tag_named "body") doc) ->
  exists doc',
    inject_script_tags doc required_js_paths root_path boilerplate_dir = Ok doc' /\
    script_elements doc' =
      (injected root_path boilerplate_dir <$> required_js_paths) ++ script_elements doc /\
    forall p, tag_predicate p ->
      (forall attrs contents, p (Tag "script" attrs contents) = false) ->
      matching p doc' = matching p doc.
Proof.
  intros Hdoc.
  destruct (decide (required_js_paths = [])) as [->|Hpaths].
  { exists doc. by split_and!. }
  destruct (inject_script_tags_order root_path boilerplate_dir doc required_js_paths
              Hpaths Hdoc) as (doc' & Hrun & Hscripts).
  exists doc'. split_and!; [done..|].
  intros p Hp Hscript. unfold inject_script_tags in Hrun.
  destruct required_js_paths as [|p0 ps0] eqn:Epaths; [done|]. rewrite <- Epaths in Hrun.
  destruct (inject_script_loop _ _ _ _) as [state'|] eqn:Hloop; [|done].
  injection Hrun as <-.
  by apply (inject_script_loop_other p _ _ _ _ _ Hp Hscript Hloop).
Qed.

Lemma inject_script_tags_in_order_witness :
  (is_Some (find (tag_named "script") Sample.page) \/
   is_Some (find (tag_named "body") Sample.page)) /\
  exists doc',
    inject_script_tags Sample.page ["a.js"; "b.js"] "." "caterpillar" = Ok doc' /\
    script_elements doc' =
      [new_script_tag "./caterpillar/a.js"; new_script_tag "./caterpillar/b.js";
       Tag "script" [("src", JStr "S.js")] []] /\
    matching (tag_named "p") doc' = [("p", [])].
Proof.
  assert (is_Some (find (tag_named "script") Sample.page) \/
          is_Some (find (tag_named "body") Sample.page)) as Hdoc.
  { left. by eexists. }
  split; [exact Hdoc|].
  destruct (inject_script_tags_in_order Sample.page ["a.js"; "b.js"] "." "caterpillar"
              Hdoc) as (doc' & Hrun & Hscripts & Hother).
  exists doc'. split; [exact Hrun|]. split; [exact Hscripts|].
  exact (Hother (tag_named "p") (fun _ _ _ _ => eq_refl) (fun _ _ => eq_refl)).
Defined.









(** ** What a conversion keeps *)

Section Always.
Context (I : world -> Prop).
Hypothesis I_stable : stable I.

Lemma always_ret {A} (a : A) : always I (mret a).
Proof. by intros w. Qed.

Lemma always_raise {A} (e : exn) : always I (@raise A e).
Proof. by intros w. Qed.

Lemma always_lift {A} (r : result A) : always I (lift r).
Proof. by intros w. Qed.

Lemma always_get_world : always I get_world.
Proof. by intros w. Qed.

Lemma always_bind {A B} (m : M A) (k : A -> M B) :
  always I m -> (forall a, always I (k a)) -> always I (m ≫= k).
Proof.
  intros Hm Hk w Hw. rewrite bind_unfold. specialize (Hm w Hw).
  destruct (m w) as [w' [a|e]]; [by apply Hk | done].
Qed.

Lemma always_try_except {A} (body : M A) handled (handler : exn -> M A) :
  always I body -> (forall e, always I (handler e)) ->
  always I (try_except body handled handler).
Proof.
  intros Hbody Hhandler w Hw. unfold try_except. specialize (Hbody w Hw).
  destruct (body w) as [w' [a|e]]; [done|].
  destruct (handled e); [by apply Hhandler | done].
Qed.

Lemma always_logging lvl msg : always I (logging lvl msg).
Proof. intros w Hw. by apply I_stable. Qed.

Lemma always_in_input_dir {A} (op : tree -> result A) : always I (in_input_dir op).
Proof. intros w Hw. unfold in_input_dir. by destruct (input_dir w). Qed.

Lemma always_in_output_dir {A} (op : tree -> tree * result A) :
  always I (in_output_dir op).
Proof.
  intros w Hw. unfold in_output_dir. destruct (output_dir w) as [t|] eqn:Hout; [|done].
  destruct (op t) as [t' r]. by eapply I_stable.
Qed.

Lemma always_install_one c dep : always I (install_one c dep).
Proof.
  unfold install_one. apply always_try_except.
  - repeat case_match;
      [apply always_in_output_dir | apply always_in_output_dir | apply always_raise].
  - intros _. apply always_logging.
Qed.

Lemma always_install_dependencies c deps : always I (install_dependencies c deps).
Proof.
  induction deps as [|dep deps IH]; [apply always_ret|].
  cbn [install_dependencies]. apply always_bind; [apply always_install_one | done].
Qed.

Lemma always_convert_app_finish c cfg cv : always I (convert_app_finish c cfg cv).
Proof.
  unfold convert_app_finish.
  repeat first
    [ apply always_bind; [|intros ?]
    | apply always_in_output_dir | apply always_logging
    | apply always_get_world | apply always_ret ].
Qed.

Lemma always_apply {A} (m : M A) w : always I m -> I w -> I (m w).1.
Proof. intros Hm. apply Hm. Qed.

(** [convert_app] after the first part of the conversion. *)
Lemma always_after_stage c cfg force w :
  I (convert_app_stage c cfg force w).1 -> I (convert_app c cfg force w).1.
Proof.
  intros Hstage. unfold convert_app. rewrite bind_unfold.
  destruct (convert_app_stage c cfg force w) as [w1 [[cv|]|e]]; simpl in Hstage; [|done..].
  unfold try_except.
  assert (I ((install_dependencies c (dependencies cv) ≫= (fun _ => mret true)) w1).1)
    as Hinstall.
  { apply always_bind; [apply always_install_dependencies | intros ?; apply always_ret| done]. }
  rewrite bind_unfold.
  destruct ((install_dependencies c (dependencies cv) ≫= _) w1) as [w2 [[]|e]];
    simpl in Hinstall.
  - by apply always_convert_app_finish.
  - done.
  - destruct (is_ValueError e); [|done]. rewrite bind_unfold. simpl. by apply I_stable.
Qed.

(** [convert_app] once the output tree is set up. *)
Lemma always_convert_app_staged c cfg (P : world -> Prop) force :
  (forall w, P w -> I (setup_output_dir force w).1) ->
  forall w, P w -> I (convert_app c cfg force w).1.
Proof.
  intros Hsetup w Hw. apply always_after_stage. unfold convert_app_stage.
  rewrite bind_unfold. unfold try_except at 1. rewrite bind_unfold.
  specialize (Hsetup w Hw).
  destruct (setup_output_dir force w) as [w0 [[]|e]]; simpl in Hsetup.
  2:{ destruct (is_OSError e); [|done]. rewrite bind_unfold. simpl.
      by apply I_stable. }
  cbn [mret M_ret negb]. apply always_apply; [|done].
  repeat first
    [ apply always_bind; [|intros ?]
    | apply always_try_except; [|intros ?]
    | apply always_in_output_dir | apply always_in_input_dir
    | apply always_logging | apply always_lift
    | apply always_get_world | apply always_ret
    | case_match ].
Qed.

End Always.





Lemma stable_output : stable (fun w => is_Some (output_dir w)).
Proof. split; [done|]. intros w t t' _ _. simpl. eauto. Qed.



(** The conversion refused: the output directory is there and [force] is
    not set. *)
Lemma convert_app_refused c cfg w :
  is_Some (output_dir w) ->
  convert_app c cfg false w =
    ({| input_dir := input_dir w; output_dir := output_dir w;
        log := log w ++ [(ERROR, "Output directory already exists.")] |}, Ok None).
Proof.
  intros Hout. unfold convert_app, convert_app_stage.
  rewrite !bind_unfold. unfold try_except. rewrite bind_unfold, setup_output_dir_run.
  rewrite bool_decide_eq_true_2 by done. simpl. by rewrite ?bind_unfold.
Qed.

(** X12: a conversion of an existing input directory always leaves an
    output directory behind, also when it fails; so a second conversion
    without [force], with whatever configuration, only logs that the
    output directory exists and returns. *)
Theorem convert_app_twice (c c' : collaborators) (cfg cfg' : config) (force : bool)
    (w : world) :
  is_Some (input_dir w) ->
  let w1 := (convert_app c cfg force w).1 in
  is_Some (output_dir w1) /\
  convert_app c' cfg' false w1 =
    ({| input_dir := input_dir w1; output_dir := output_dir w1;
        log := log w1 ++ [(ERROR, "Output directory already exists.")] |}, Ok None).
Proof.
  intros [t Hin]. cbn zeta.
  assert (is_Some (output_dir (convert_app c cfg force w).1)) as Hout.
  { apply (always_convert_app_staged _ stable_output)
      with (P := fun w' => w' = w); [|done].
    intros w' ->. rewrite setup_output_dir_run, Hin.
    destruct (negb force && _) eqn:E; simpl; [|eauto].
    apply andb_true_iff in E as [_ E]. by apply bool_decide_eq_true in E. }
  split; [done|]. by apply convert_app_refused.
Qed.

Lemma convert_app_twice_witness :
  is_Some (input_dir Sample.start) /\
  is_Some (output_dir (convert_app Sample.demo Sample.settings false Sample.start).1) /\
  (convert_app Sample.demo_silent Sample.settings false
     (convert_app Sample.demo Sample.settings false Sample.start).1).2 = Ok None.
Proof.
  assert (is_Some (input_dir Sample.start)) as Hin by by eexists.
  split; [exact Hin|].
  destruct (convert_app_twice Sample.demo Sample.demo_silent Sample.settings
              Sample.settings false Sample.start Hin) as [Hout Hrun].
  split; [exact Hout|]. rewrite Hrun. reflexivity.
Defined.


(** X13: with [force], [convert_app] does what it does without [force]
    when the output directory is not there: what the output directory
    held has no influence on the result. *)
Theorem convert_app_force (c : collaborators) (cfg : config) (w : world) :
  convert_app c cfg true w =
  convert_app c cfg false
    {| input_dir := input_dir w; output_dir := None; log := log w |}.
Proof.
  unfold convert_app, convert_app_stage.
  rewrite !bind_unfold. unfold try_except at 1 3. rewrite !bind_unfold.
  rewrite !setup_output_dir_run. simpl.
  by destruct (input_dir w).
Qed.

(** X14: without the input directory the conversion logs an error with
    an empty message (the message of the [OSError] of [shutil.copytree])
    and returns; with [force] the output directory has been removed by
    then, and is not there afterwards. *)
Theorem convert_app_missing_input (c : collaborators) (cfg : config) (force : bool)
    (w : world) :
  input_dir w = None ->
  force = true \/ output_dir w = None ->
  convert_app c cfg force w =
    ({| input_dir := None; output_dir := None;
        log := log w ++ [(ERROR, EmptyString)] |}, Ok None).
Proof.
  intros Hin Hfresh. unfold convert_app, convert_app_stage.
  rewrite !bind_unfold. unfold try_except. rewrite bind_unfold, setup_output_dir_run, Hin.
  destruct Hfresh as [->|Hout]; simpl.
  - by rewrite ?bind_unfold.
  - rewrite Hout. rewrite bool_decide_eq_false_2 by by intros [? ?].
    rewrite andb_false_r. simpl. rewrite ?bind_unfold. simpl.
    by destruct force.
Qed.

Lemma convert_app_missing_input_witness :
  input_dir Sample.lost = None /\
  output_dir Sample.lost = Some Sample.with_worker /\
  convert_app Sample.demo Sample.settings true Sample.lost =
    ({| input_dir := None; output_dir := None; log := [(ERROR, EmptyString)] |},
     Ok None).
Proof.
  split; [reflexivity|]. split; [reflexivity|].
  apply (convert_app_missing_input Sample.demo Sample.settings true Sample.lost).
  - reflexivity.
  - left. reflexivity.
Defined.










(** ** Static code and the service worker *)

(** X17: when [copy_static_code] returns, every requested script was
    among Caterpillar's own and is in the tree, below the boilerplate
    directory and, where no two requests have the same destination, with
    the content of its source; no other file of the tree has changed. *)
Theorem copy_static_code_copies (c : collaborators) (static_code_paths : list string)
    (boilerplate_dir : string) (t t' : tree) :
  copy_static_code c static_code_paths boilerplate_dir t = (t', Ok ()) ->
  (forall path, path ∈ static_code_paths ->
     is_Some (caterpillar_js c !! path) /\
     is_Some (t' !! path_join boilerplate_dir path)) /\
  (NoDup (path_join boilerplate_dir <$> static_code_paths) ->
   forall path, path ∈ static_code_paths ->
     t' !! path_join boilerplate_dir path = caterpillar_js c !! path) /\
  (forall file, file ∉ path_join boilerplate_dir <$> static_code_paths ->
     t' !! file = t !! file).
Proof.
  revert t. induction static_code_paths as [|p ps IH]; intros t.
  { intros [= <-].
    split_and!; [intros path Hpath | intros _ path Hpath | done];
      by apply elem_of_nil in Hpath. }
  cbn [copy_static_code]. unfold copyfile.
  destruct (caterpillar_js c !! p) as [content|] eqn:Hp; [|done].
  intros Hrest. destruct (IH _ Hrest) as (IH1 & IH2 & IH3). split_and!.
  - intros path [->|Hpath]%elem_of_cons; [|by apply IH1].
    split; [by eexists|].
    destruct (decide (path_join boilerplate_dir p
                      ∈ path_join boilerplate_dir <$> ps)) as [Hin|Hout].
    + apply list_elem_of_fmap in Hin as (q & -> & Hin). by apply IH1.
    + rewrite IH3 by done. rewrite lookup_insert_eq. by eexists.
  - rewrite fmap_cons. intros [Hout Hnodup]%NoDup_cons path [->|Hpath]%elem_of_cons.
    + rewrite IH3 by done. by rewrite lookup_insert_eq.
    + by apply IH2.
  - intros file Hfile. rewrite fmap_cons, not_elem_of_cons in Hfile.
    destruct Hfile as [Hne Hfile]. rewrite IH3 by done. by rewrite lookup_insert_ne.
Qed.

Lemma copy_static_code_copies_witness :
  copy_static_code Sample.demo ["caterpillar.js"; "sw_static.js"] "caterpillar"
    Sample.with_worker =
    (<["caterpillar/sw_static.js" := "// static"]>
       (<["caterpillar/caterpillar.js" := "// caterpillar"]> Sample.with_worker),
     Ok ()) /\
  forall file,
    file ∉ ["caterpillar/caterpillar.js"; "caterpillar/sw_static.js"] ->
    (<["caterpillar/sw_static.js" := "// static"]>
       (<["caterpillar/caterpillar.js" := "// caterpillar"]> Sample.with_worker)
     : tree) !! file = Sample.with_worker !! file.
Proof.
  assert (copy_static_code Sample.demo ["caterpillar.js"; "sw_static.js"] "caterpillar"
            Sample.with_worker =
          (<["caterpillar/sw_static.js" := "// static"]>
             (<["caterpillar/caterpillar.js" := "// caterpillar"]> Sample.with_worker),
           Ok ())) as Hrun by reflexivity.
  split; [exact Hrun|].
  exact (proj2 (proj2 (copy_static_code_copies _ _ _ _ _ Hrun))).
Defined.





Lemma walk_dom (t1 t2 : tree) : dom t1 = dom t2 -> walk t1 ≡ₚ walk t2.
Proof.
  intros Hdom. apply NoDup_Permutation.
  - apply NoDup_fst_map_to_list.
  - apply NoDup_fst_map_to_list.
  - intros path. unfold walk.
    rewrite !list_elem_of_fmap.
    assert (forall t : tree, (exists y : string * string, path = y.1 /\ y ∈ map_to_list t)
                             <-> path ∈ dom t) as Hiff.
    { intros t. rewrite elem_of_dom. split.
      - intros [[k v] [-> Hin%elem_of_map_to_list]]. by exists v.
      - intros [v Hv]. exists (path, v). split; [done|]. by apply elem_of_map_to_list. }
    by rewrite !Hiff, Hdom.
Qed.

Lemma merge_sort_order (l1 l2 : list string) :
  l1 ≡ₚ l2 -> merge_sort String.le l1 = merge_sort String.le l2.
Proof.
  intros Hperm. apply (Sorted_unique String.le).
  - apply Sorted_merge_sort, _.
  - apply Sorted_merge_sort, _.
  - by rewrite !merge_sort_Permutation.
Qed.

(** X19: the list of cached files, and so the service worker, depends
    on the names of the files of the tree only: neither the order in
    which the walk yields the files nor the content of a file changes
    it. *)
Theorem generate_service_worker_names (cache_version : Z) (t1 t2 : tree)
    (chrome_app_manifest : gmap string json) (required_js_paths : list string)
    (boilerplate_dir : string) :
  dom t1 = dom t2 ->
  (forall files, files ≡ₚ walk t1 -> merge_sort String.le files = all_filepaths t1) /\
  all_filepaths t1 = all_filepaths t2 /\
  generate_service_worker cache_version t1 chrome_app_manifest required_js_paths
    boilerplate_dir =
  generate_service_worker cache_version t2 chrome_app_manifest required_js_paths
    boilerplate_dir.
Proof.
  intros Hdom.
  assert (all_filepaths t1 = all_filepaths t2) as Heq
    by by apply merge_sort_order, walk_dom.
  split_and!; [|done|].
  - intros files Hfiles. by apply merge_sort_order.
  - unfold generate_service_worker. by rewrite Heq.
Qed.

Lemma generate_service_worker_names_witness :
  dom Sample.site = dom Sample.site' /\
  Sample.site <> Sample.site' /\
  generate_service_worker 42 Sample.site Sample.manifest [] "caterpillar" =
  generate_service_worker 42 Sample.site' Sample.manifest [] "caterpillar".
Proof.
  assert (dom Sample.site = dom Sample.site') as Hdom by reflexivity.
  split; [exact Hdom|]. split.
  - intros Heq. apply (f_equal (fun t : tree => t !! "index.html")) in Heq.
    discriminate Heq.
  - exact (proj2 (proj2 (generate_service_worker_names 42 Sample.site Sample.site'
                           Sample.manifest [] "caterpillar" Hdom))).
Defined.


(** X20: [add_service_worker] writes the service worker to the root of
    the tree, has the registration script and the static script in the
    boilerplate directory and in the list of cached files, also when the
    tree did not hold them before, and changes no other file. *)
Theorem add_service_worker_files (c : collaborators)
    (chrome_app_manifest : gmap string json) (required_js_paths : list string)
    (boilerplate_dir : string) (t t' : tree) :
  add_service_worker c chrome_app_manifest required_js_paths boilerplate_dir t
    = (t', Ok ()) ->
  exists snapshot scripts,
    t' !! SW_SCRIPT_NAME =
      Some (service_worker_text c snapshot required_js_paths scripts boilerplate_dir) /\
    path_join boilerplate_dir REGISTER_SCRIPT_NAME ∈ all_filepaths snapshot /\
    path_join boilerplate_dir SW_STATIC_SCRIPT_NAME ∈ all_filepaths snapshot /\
    is_Some (t' !! path_join boilerplate_dir REGISTER_SCRIPT_NAME) /\
    t' !! path_join boilerplate_dir SW_STATIC_SCRIPT_NAME =
      caterpillar_js c !! SW_STATIC_SCRIPT_NAME /\
    forall file,
      file ∉ [SW_SCRIPT_NAME; path_join boilerplate_dir REGISTER_SCRIPT_NAME;
              path_join boilerplate_dir SW_STATIC_SCRIPT_NAME] ->
      t' !! file = t !! file.
Proof.
  intros Hrun.
  destruct (add_service_worker_Ok _ _ _ _ _ _ Hrun)
    as (register & static & scripts & Hreg & Hstatic & Hscripts).
  rewrite (add_service_worker_run _ _ _ _ _ _ _ _ Hreg Hstatic Hscripts) in Hrun.
  cbn zeta in Hrun. injection Hrun as <-.
  assert (path_join boilerplate_dir REGISTER_SCRIPT_NAME <> SW_SCRIPT_NAME) as Hne1
    by (apply path_join_not_sw_script; simpl; lia).
  assert (path_join boilerplate_dir SW_STATIC_SCRIPT_NAME <> SW_SCRIPT_NAME) as Hne2
    by (apply path_join_not_sw_script; simpl; lia).
  eexists _, scripts. unfold write_file. split_and!.
  - by rewrite lookup_insert_eq.
  - apply all_filepaths_spec. rewrite !lookup_insert.
    repeat case_decide; first [done | by eexists].
  - apply all_filepaths_spec. rewrite lookup_insert_eq. by eexists.
  - rewrite !lookup_insert. repeat case_decide; first [done | by eexists].
  - rewrite lookup_insert_ne by done. by rewrite lookup_insert_eq.
  - intros file Hfile. rewrite !not_elem_of_cons in Hfile.
    destruct Hfile as (H1 & H2 & H3 & _). by rewrite !lookup_insert_ne.
Qed.

Lemma add_service_worker_files_witness :
  add_service_worker Sample.demo Sample.manifest [] "caterpillar" Sample.with_worker =
    (write_file SW_SCRIPT_NAME
       (service_worker_text Sample.demo Sample.snapshot [] ["background.js"]
          "caterpillar")
       Sample.snapshot, Ok ()) /\
  exists snapshot : tree,
    "caterpillar/register_sw.js" ∈ all_filepaths snapshot /\
    "caterpillar/sw_static.js" ∈ all_filepaths snapshot.
Proof.
  assert (add_service_worker Sample.demo Sample.manifest [] "caterpillar"
            Sample.with_worker =
          (write_file SW_SCRIPT_NAME
             (service_worker_text Sample.demo Sample.snapshot [] ["background.js"]
                "caterpillar")
             Sample.snapshot, Ok ())) as Hrun by reflexivity.
  split; [exact Hrun|].
  destruct (add_service_worker_files _ _ _ _ _ _ Hrun)
    as (snapshot & scripts & _ & Hreg & Hstatic & _).
  exists snapshot. split; [exact Hreg | exact Hstatic].
Defined.


(** ** Installing and the manifest *)








(** X23: [generate_web_manifest] raises [KeyError] for a manifest
    without a name, before it looks at anything else, and otherwise fails
    only on icons it cannot iterate; the web manifest it returns always
    has the display [minimal-ui], any orientation, white as theme and
    background colour, and does not prefer related applications. *)
Theorem generate_web_manifest_outcome (manifest : gmap string json)
    (start_url : string) :
  match generate_web_manifest manifest start_url with
  | Ok web_manifest =>
      is_Some (manifest !! "name") /\
      web_manifest !! "display" = Some (JStr "minimal-ui") /\
      web_manifest !! "orientation" = Some (JStr "any") /\
      web_manifest !! "theme_color" = Some (JStr "white") /\
      web_manifest !! "background_color" = Some (JStr "white") /\
      web_manifest !! "prefer_related_applications" = Some (JBool false)
  | Raise e =>
      (manifest !! "name" = None /\ e = KeyError "name") \/
      (is_Some (manifest !! "name") /\
       exists icons, manifest !! "icons" = Some icons /\ icon_entries icons = Raise e)
  end.
Proof.
  unfold generate_web_manifest, dict_getitem.
  destruct (manifest !! "name") as [name|] eqn:Hname; simpl; [|by left].
  destruct (manifest !! "icons") as [icons|] eqn:Hicons; simpl.
  - destruct (icon_entries icons) as [entries|e] eqn:Hentries; simpl.
    + split_and!; [eauto|by simplify_map_eq..].
    + right. eauto.
  - split_and!; [eauto|by simplify_map_eq..].
Qed.

(** X24: the status of a conversion depends on the set of the detected
    APIs only, not on their order or on repetitions, nor on the order in
    which the loop meets the polyfill manifests; and detecting more APIs
    never turns a partial status into a total one. *)
Theorem conversion_status_set (c : collaborators) (apis apis' : list string) :
  (forall api, api ∈ apis -> api ∈ apis') ->
  (conversion_status (resolved c apis') = "total" ->
   conversion_status (resolved c apis) = "total") /\
  ((forall api, api ∈ apis' -> api ∈ apis) ->
   conversion_status (resolved c apis) = conversion_status (resolved c apis')).
Proof.
  intros Hsub.
  assert (forall l l' : list string,
            (forall api, api ∈ l -> api ∈ l') ->
            conversion_status (resolved c l') = "total" ->
            conversion_status (resolved c l) = "total") as Hmono.
  { intros l l' Hl. rewrite !conversion_status_total. intros Htotal api Hapi.
    by apply Htotal, Hl. }
  split; [by apply Hmono|]. intros Hsup.
  destruct (decide (conversion_status (resolved c apis) = "total")) as [Ht|Hp].
  - rewrite Ht. symmetry. by apply (Hmono apis' apis).
  - assert (conversion_status (resolved c apis') <> "total") as Hp'.
    { intros Ht'. apply Hp. by apply (Hmono apis apis'). }
    unfold conversion_status in *.
    by rewrite (status_loop_partial _ Hp), (status_loop_partial _ Hp').
Qed.

Lemma conversion_status_set_witness :
  (forall api, api ∈ ["tts"; "tts"; "app.window"] -> api ∈ ["app.window"; "tts"]) /\
  conversion_status (resolved Sample.demo ["tts"; "tts"; "app.window"]) =
  conversion_status (resolved Sample.demo ["app.window"; "tts"]).
Proof.
  assert (forall api, api ∈ ["tts"; "tts"; "app.window"] -> api ∈ ["app.window"; "tts"])
    as Hsub.
  { intros api Hin. apply list_elem_of_In in Hin. apply list_elem_of_In.
    simpl in *. tauto. }
  assert (forall api, api ∈ ["app.window"; "tts"] -> api ∈ ["tts"; "tts"; "app.window"])
    as Hsup.
  { intros api Hin. apply list_elem_of_In in Hin. apply list_elem_of_In.
    simpl in *. tauto. }
  split; [exact Hsub|].
  exact (proj2 (conversion_status_set Sample.demo ["tts"; "tts"; "app.window"]
                  ["app.window"; "tts"] Hsub) Hsup).
Defined.
